(** * Agent specification validator: a model of [scripts/validate_agent_specs.py]

    The validator reads every agent specification of a directory, splits
    it into its [## ] sections and runs five structural checks on it.
    This file embeds the script in Rocq and proves what its specification
    says about it.

    A Python [str] is a sequence of Unicode code points; it is modelled
    as a list of code points, so that slicing ([content[:500]]) counts
    characters as Python does. *)

From Stdlib Require Import NArith ZArith Ascii String DecimalString Sorted.
From stdpp Require Import gmap list.

Local Open Scope N_scope.
Local Open Scope list_scope.

(** ** Python strings *)

Abbreviation str := (list N).

(** Reads an ASCII literal the way Python reads it: backslash-n is the
    newline character, every other character stands for itself. *)
Fixpoint py (s : string) : str :=
  match s with
  | EmptyString => []
  | String "\"%char (String "n"%char s') => 10 :: py s'
  | String c s' => N_of_ascii c :: py s'
  end.
Arguments py s%_string : simpl never.

Definition nl : N := 10.

(** [str.isspace] of one character, which is also the class [\s] of a
    [str] pattern: the code points CPython lists as whitespace. *)
Definition isspace (c : N) : bool :=
  ((9 <=? c) && (c <=? 13)) || ((28 <=? c) && (c <=? 32)) ||
  (c =? 133) || (c =? 160) || (c =? 5760) ||
  ((8192 <=? c) && (c <=? 8202)) || (c =? 8232) || (c =? 8233) ||
  (c =? 8239) || (c =? 8287) || (c =? 12288).

(** [s.strip()] *)
Fixpoint lstrip (s : str) : str :=
  match s with
  | c :: s' => if isspace c then lstrip s' else s
  | [] => []
  end.
Definition rstrip (s : str) : str := reverse (lstrip (reverse s)).
Definition strip (s : str) : str := rstrip (lstrip s).

(** [s.split(sep)] for a separator of one character *)
Fixpoint split_on (sep : N) (s : str) : list str :=
  match s with
  | [] => [[]]
  | c :: s' =>
      if c =? sep then [] :: split_on sep s'
      else match split_on sep s' with
           | l :: ls => (c :: l) :: ls
           | [] => [[c]]
           end
  end.

(** [s.split('\n')] *)
Definition split_nl (s : str) : list str := split_on nl s.

(** ['\n'.join(ls)] *)
Fixpoint join_nl (ls : list str) : str :=
  match ls with
  | [] => []
  | [l] => l
  | l :: ls' => l ++ nl :: join_nl ls'
  end.

(** [s.startswith(w)], returning what follows [w]. *)
Fixpoint strip_prefix (w s : str) : option str :=
  match w, s with
  | [], _ => Some s
  | a :: w', b :: s' => if a =? b then strip_prefix w' s' else None
  | _ :: _, [] => None
  end.

(** [w in s] on strings: [w] occurs in [s] as a substring. *)
Fixpoint str_in (w s : str) : bool :=
  match strip_prefix w s with
  | Some _ => true
  | None => match s with
            | [] => false
            | _ :: s' => str_in w s'
            end
  end.

(** ** The fragment of Python's [re] that the script uses

    Patterns are matched by backtracking, in the priority order of [re]:
    a greedy repetition tries the longest run first, a lazy one the
    shortest, an alternation its left branch.  Every repetition of the
    script repeats a character class, which is what [PlusG] and [PlusL]
    take.  The script's patterns have one capture group. *)

Inductive regex :=
| Lit (w : str)            (* literal characters *)
| Cat (r1 r2 : regex)      (* r1 r2 *)
| Alt (r1 r2 : regex)      (* r1|r2 *)
| PlusG (p : N → bool)     (* [p]+ *)
| PlusL (p : N → bool)     (* [p]+? *)
| Grp (r : regex)          (* (r), group 1 *)
| Look (r : regex)         (* (?=r) *)
| Bol                      (* ^ without MULTILINE *)
| Eol                      (* $ without MULTILINE *)
| EndZ.                    (* \Z *)

(** Character classes. *)
Definition dot (c : N) : bool := negb (c =? nl).      (* . *)
Definition dotall (_ : N) : bool := true.             (* . under re.DOTALL *)
Definition lower_hyphen (c : N) : bool :=              (* [a-z-] *)
  ((97 <=? c) && (c <=? 122)) || (c =? 45).

Fixpoint plus_greedy {R} (p : N → bool) (s : str) (k : str → option R) : option R :=
  match s with
  | c :: s' =>
      if p c then
        match plus_greedy p s' k with
        | Some m => Some m
        | None => k s'
        end
      else None
  | [] => None
  end.

Fixpoint plus_lazy {R} (p : N → bool) (s : str) (k : str → option R) : option R :=
  match s with
  | c :: s' =>
      if p c then
        match k s' with
        | Some m => Some m
        | None => plus_lazy p s' k
        end
      else None
  | [] => None
  end.

(** A match: the text left after it and the text of group 1. *)
Abbreviation rmatch_result := (str * option str)%type.

(** [rmatch n r s g k]: match [r] at the head of [s], the rest of a text
    of [n] characters, with group 1 currently [g], and go on with [k];
    [None] when every alternative fails. *)
Fixpoint rmatch (R : Type) (n : nat) (r : regex) (s : str) (g : option str)
    (k : str → option str → option R) : option R :=
  match r with
  | Lit w =>
      match strip_prefix w s with
      | Some s' => k s' g
      | None => None
      end
  | Cat r1 r2 => rmatch R n r1 s g (fun s' g' => rmatch R n r2 s' g' k)
  | Alt r1 r2 =>
      match rmatch R n r1 s g k with
      | Some m => Some m
      | None => rmatch R n r2 s g k
      end
  | PlusG p => plus_greedy p s (fun s' => k s' g)
  | PlusL p => plus_lazy p s (fun s' => k s' g)
  | Grp r1 =>
      rmatch R n r1 s g
        (fun s' _ => k s' (Some (take (length s - length s') s)))
  | Look r1 =>
      match rmatch rmatch_result n r1 s g (fun s' g' => Some (s', g')) with
      | Some (_, g') => k s g'
      | None => None
      end
  | Bol => if (length s =? n)%nat then k s g else None
  | Eol => match s with
           | [] => k s g
           | [c] => if c =? nl then k s g else None
           | _ => None
           end
  | EndZ => match s with
            | [] => k s g
            | _ => None
            end
  end.
Arguments rmatch {R} n r s g k.

Definition match_here (n : nat) (r : regex) (s : str) : option rmatch_result :=
  rmatch n r s None (fun s' g => Some (s', g)).

(** [re.match(r, s)] *)
Definition re_match (r : regex) (s : str) : option rmatch_result :=
  match_here (length s) r s.

(** [re.search(r, s)]: the match at the leftmost position that has one. *)
Fixpoint search_from (n : nat) (r : regex) (s : str) : option rmatch_result :=
  match match_here n r s with
  | Some m => Some m
  | None => match s with
            | [] => None
            | _ :: s' => search_from n r s'
            end
  end.

Definition re_search (r : regex) (s : str) : option rmatch_result :=
  search_from (length s) r s.

(** [m.group(1)] *)
Definition group1 (m : rmatch_result) : str := default [] (snd m).

(** [re.findall(r, s)] for a pattern with one group: group 1 of every
    match, scanning from the left and resuming where a match ended.
    [skip] counts the characters of the last match still to pass. *)
Fixpoint findall_from (n : nat) (r : regex) (s : str) (skip : nat) : list str :=
  match s with
  | [] =>
      match match_here n r [] with
      | Some m => [group1 m]
      | None => []
      end
  | _ :: s' =>
      match skip with
      | S skip' => findall_from n r s' skip'
      | O =>
          match match_here n r s with
          | Some m => group1 m :: findall_from n r s' (pred (length s - length (fst m)))
          | None => findall_from n r s' 0
          end
      end
  end.

Definition re_findall (r : regex) (s : str) : list str :=
  findall_from (length s) r s 0.

(** ** The tables of required structure *)

Definition REQUIRED_SECTIONS : list str :=
  [ py "Agent Name";
    py "Overview";
    py "Responsibilities";
    py "Capabilities";
    py "Triggers & Activation";
    py "Operational Guidelines";
    py "Telemetry & Monitoring";
    py "Safety & Security";
    py "Integration Points";
    py "Runbooks & Documentation";
    py "Ownership & Maintenance";
    py "Change Log" ].

(** A [dict] literal that is only iterated with [.items()]: its pairs in
    the order they are written. *)
Definition REQUIRED_SUBSECTIONS : list (str * list str) :=
  [ (py "Responsibilities", [py "Primary Responsibilities"; py "Secondary Responsibilities"]);
    (py "Capabilities", [py "Core Capabilities"; py "Technical Skills"]);
    (py "Operational Guidelines", [py "Decision Framework"; py "Quality Standards"; py "Constraints"]);
    (py "Telemetry & Monitoring", [py "Events to Track"; py "Metrics to Monitor"; py "Monitoring Dashboard"]);
    (py "Safety & Security", [py "Safety Considerations"; py "Security Requirements"; py "Failure Handling"]);
    (py "Integration Points", [py "Dependencies"; py "Interactions with Other Agents"]);
    (py "Runbooks & Documentation", [py "Runbook Links"; py "Related Documentation"]);
    (py "Ownership & Maintenance", []) ].

Definition REQUIRED_OWNERSHIP_FIELDS : list str :=
  [py "Owner"; py "Backup Owner"; py "Last Updated"; py "Review Frequency"].

(** ** Findings *)

Record ValidationError := {
  filename : str;
  error_type : str;
  details : str
}.

#[global] Instance ValidationError_eq_dec : EqDecision ValidationError.
Proof. solve_decision. Defined.

Definition cross_mark : str := [10060].      (* U+274C *)

(** [ValidationError.__str__] *)
Definition ValidationError_str (e : ValidationError) : str :=
  cross_mark ++ py " " ++ filename e ++ py ": [" ++ error_type e ++ py "] " ++ details e.

(** ** The validator's state and its monad

    Of the fields of [AgentSpecValidator], [self.agents_dir] is set once
    and only read: the methods that read it take it as an argument.
    [self.errors] is the field the methods change; what they print is
    kept beside it, one entry per [print] call. *)

Record validator := {
  errors : list ValidationError;
  stdout : list str
}.

Definition M (A : Type) : Type := validator → A * validator.

Definition ret {A} (x : A) : M A := fun v => (x, v).
Definition bind {A B} (m : M A) (f : A → M B) : M B :=
  fun v => let (x, v') := m v in f x v'.

Notation "x <- m ;; f" := (bind m (fun x => f))
  (at level 100, m at next level, right associativity).
Notation "m ;; f" := (bind m (fun _ => f))
  (at level 100, right associativity).

(** [self.errors.append(e)] *)
Definition append_error (e : ValidationError) : M unit :=
  fun v => (tt, {| errors := errors v ++ [e]; stdout := stdout v |}).

(** [print(line)] *)
Definition print (line : str) : M unit :=
  fun v => (tt, {| errors := errors v; stdout := stdout v ++ [line] |}).

(** [self.errors] *)
Definition get_errors : M (list ValidationError) := fun v => (errors v, v).

(** [for x in l: f(x)] *)
Fixpoint for_each {A} (l : list A) (f : A → M unit) : M unit :=
  match l with
  | [] => ret tt
  | x :: l' => f x ;; for_each l' f
  end.

Definition exec {A} (m : M A) (v : validator) : validator := snd (m v).

(** ** The section extractor *)

(** [r'^##\s+(.+)$'] *)
Definition header_re : regex :=
  Cat Bol (Cat (Lit (py "##")) (Cat (PlusG isspace) (Cat (Grp (PlusG dot)) Eol))).

(** The local variables of [_extract_sections]. *)
Record extractor := {
  sections : gmap str str;
  current_section : option str;
  current_content : list str
}.

(** [if current_section:] holds for a string that is not empty. *)
Definition truthy (o : option str) : bool :=
  match o with
  | Some (_ :: _) => true
  | _ => false
  end.

(** [if current_section: sections[current_section] = '\n'.join(current_content)] *)
Definition save_section (x : extractor) : gmap str str :=
  match current_section x with
  | Some (c :: n) => <[c :: n := join_nl (current_content x)]> (sections x)
  | _ => sections x
  end.

(** The body of the loop over the lines. *)
Definition extract_step (x : extractor) (line : str) : extractor :=
  match re_match header_re line with
  | Some m =>
      {| sections := save_section x;
         current_section := Some (strip (group1 m));
         current_content := [] |}
  | None =>
      if truthy (current_section x)
      then {| sections := sections x;
              current_section := current_section x;
              current_content := current_content x ++ [line] |}
      else x
  end.

Definition extract_init : extractor :=
  {| sections := ∅; current_section := None; current_content := [] |}.

Definition _extract_sections (content : str) : gmap str str :=
  save_section (fold_left extract_step (split_nl content) extract_init).

(** ** The five checks *)

Definition _check_required_sections (filename : str) (sections : gmap str str) : M unit :=
  for_each REQUIRED_SECTIONS (fun required_section =>
    match sections !! required_section with
    | None =>
        append_error
          {| filename := filename;
             error_type := py "MISSING_SECTION";
             details := py "Required section '## " ++ required_section ++ py "' not found" |}
    | Some _ => ret tt
    end).

Definition _check_required_subsections (filename content : str) (sections : gmap str str)
    : M unit :=
  for_each REQUIRED_SUBSECTIONS (fun '(section, required_subsections) =>
    match sections !! section with
    | None => ret tt                 (* continue *)
    | Some section_content =>
        for_each required_subsections (fun subsection =>
          if negb (str_in (py "### " ++ subsection) section_content) then
            append_error
              {| filename := filename;
                 error_type := py "MISSING_SUBSECTION";
                 details := py "Required subsection '### " ++ subsection ++
                            py "' not found in '## " ++ section ++ py "'" |}
          else ret tt)
    end).

(** [r'## Ownership & Maintenance\s+(.+?)(?=\n##|\Z)'] under [re.DOTALL] *)
Definition ownership_re : regex :=
  Cat (Lit (py "## Ownership & Maintenance"))
    (Cat (PlusG isspace)
      (Cat (Grp (PlusL dotall))
        (Look (Alt (Lit (py "\n##")) EndZ)))).

(** [f"\\*\\*{re.escape(field)}\\*\\*:"]: the escaped pattern matches the
    characters of the label and nothing else. *)
Definition field_pattern (field : str) : regex :=
  Lit (py "**" ++ field ++ py "**:").

Definition _check_ownership_fields (filename content : str) : M unit :=
  match re_search ownership_re content with
  | None => ret tt                   (* return *)
  | Some ownership_match =>
      let ownership_content := group1 ownership_match in
      for_each REQUIRED_OWNERSHIP_FIELDS (fun field =>
        match re_search (field_pattern field) ownership_content with
        | None =>
            append_error
              {| filename := filename;
                 error_type := py "MISSING_FIELD";
                 details := py "Required field '**" ++ field ++
                            py ":**' not found in Ownership & Maintenance" |}
        | Some _ => ret tt
        end)
  end.

(** [r'\*\*Role\*\*:'] *)
Definition role_re : regex := Lit (py "**Role**:").

Definition _check_role_field (filename content : str) : M unit :=
  match re_search role_re (take 500 content) with
  | None =>
      append_error
        {| filename := filename;
           error_type := py "MISSING_FIELD";
           details := py "Required field '**Role:**' not found near the top of the file" |}
  | Some _ => ret tt
  end.

(** [r'### Events to Track\s+(.+?)(?=\n###|\n##|\Z)'] under [re.DOTALL] *)
Definition events_re : regex :=
  Cat (Lit (py "### Events to Track"))
    (Cat (PlusG isspace)
      (Cat (Grp (PlusL dotall))
        (Look (Alt (Lit (py "\n###")) (Alt (Lit (py "\n##")) EndZ))))).

(** [r'`agent\.([a-z-]+)\.'] *)
Definition event_pattern : regex :=
  Cat (Lit (py "`agent.")) (Cat (Grp (PlusG lower_hyphen)) (Lit (py "."))).

(** [Path(p).name] on a POSIX path: the last component, where empty and
    [.] components do not count. *)
Definition path_name (p : str) : str :=
  default [] (last (filter (fun c => c ≠ [] ∧ c ≠ py ".") (split_on 47 p))).

(** [s.rfind(c)]; [None] stands for -1. *)
Fixpoint rfind (c : N) (s : str) : option nat :=
  match s with
  | [] => None
  | a :: s' =>
      match rfind c s' with
      | Some i => Some (S i)
      | None => if a =? c then Some O else None
      end
  end.

(** [Path(p).stem]: the name up to its last dot, when that dot is neither
    the first nor the last character of the name. *)
Definition path_stem (p : str) : str :=
  let name := path_name p in
  match rfind 46 name with
  | Some i => if bool_decide (0 < i < length name - 1)%nat then take i name else name
  | None => name
  end.

Definition _check_telemetry_events (filename content : str) : M unit :=
  match re_search events_re content with
  | None => ret tt                   (* return *)
  | Some events_match =>
      let events_content := group1 events_match in
      let agent_name := path_stem filename in
      let events := re_findall event_pattern events_content in
      match events with
      | _ :: _ =>
          let correct_events := filter (fun e => e = agent_name) events in
          match correct_events with
          | [] =>
              append_error
                {| filename := filename;
                   error_type := py "TELEMETRY_NAMING";
                   details := py "Telemetry events should follow pattern `agent." ++
                              agent_name ++ py ".*`" |}
          | _ :: _ => ret tt
          end
      | [] => ret tt
      end
  end.

(** ** Files and the run *)

(** A directory entry: its name and what [read_text(encoding='utf-8')]
    gives for it, the decoded text or the message of the exception. *)
Record file := {
  name : str;
  read_text : str + str
}.

(** [agents_dir]: its path and, when it exists, its entries. *)
Record directory := {
  dir_path : str;
  dir_entries : option (list file)
}.

Definition page_mark : str := [128196].      (* U+1F4C4 *)
Definition glass_mark : str := [128269].     (* U+1F50D *)
Definition warning_mark : str := [9888; 65039].
Definition check_mark : str := [9989].       (* U+2705 *)

Definition validate_file (filepath : file) : M unit :=
  print (page_mark ++ py " Validating " ++ name filepath ++ py "...") ;;
  match read_text filepath with
  | inl e =>
      append_error
        {| filename := name filepath;
           error_type := py "READ_ERROR";
           details := py "Failed to read file: " ++ e |}
  | inr content =>
      let sections := _extract_sections content in
      _check_required_sections (name filepath) sections ;;
      _check_required_subsections (name filepath) content sections ;;
      _check_ownership_fields (name filepath) content ;;
      _check_role_field (name filepath) content ;;
      _check_telemetry_events (name filepath) content
  end.

(** [s.endswith(w)] *)
Definition ends_with (w s : str) : bool :=
  bool_decide (drop (length s - length w) s = w).

(** Comparison of strings, by code points. *)
Fixpoint str_le (a b : str) : bool :=
  match a, b with
  | [], _ => true
  | _ :: _, [] => false
  | x :: a', y :: b' => (x <? y) || ((x =? y) && str_le a' b')
  end.

(** [sorted] of files of one directory, which compare by name. *)
Fixpoint insert_sorted (f : file) (l : list file) : list file :=
  match l with
  | [] => [f]
  | g :: l' => if str_le (name f) (name g) then f :: l else g :: insert_sorted f l'
  end.

Definition sorted (l : list file) : list file := foldr insert_sorted [] l.

(** [str(n)] of a length *)
Definition str_of_nat (n : nat) : str :=
  py (DecimalString.NilEmpty.string_of_uint (Nat.to_uint n)).

(** The files [validate_all] keeps: [glob("*.md")] without the template
    and the index. *)
Definition agent_files (entries : list file) : list file :=
  filter (fun f => ends_with (py ".md") (name f) = true
                   ∧ name f ≠ py "TEMPLATE.md" ∧ name f ≠ py "README.md") entries.

Definition validate_all (agents_dir : directory) : M bool :=
  match dir_entries agents_dir with
  | None =>
      print (cross_mark ++ py " Error: Directory " ++ dir_path agents_dir ++ py " does not exist") ;;
      ret false
  | Some entries =>
      match agent_files entries with
      | [] =>
          print (warning_mark ++ py "  Warning: No agent specification files found in " ++
                 dir_path agents_dir) ;;
          ret true
      | files =>
          print (glass_mark ++ py " Validating " ++ str_of_nat (length files) ++
                 py " agent specification(s)...\n") ;;
          for_each (sorted files) validate_file ;;
          es <- get_errors ;;
          ret (bool_decide (length es = 0%nat))
      end
  end.

Definition rule : str := replicate 70 61.    (* "=" * 70 *)

Definition print_summary : M unit :=
  print [] ;;
  es <- get_errors ;;
  match es with
  | _ :: _ =>
      print rule ;;
      print (py "VALIDATION FAILURES") ;;
      print rule ;;
      for_each es (fun error => print (ValidationError_str error)) ;;
      print [] ;;
      print (cross_mark ++ py " Validation failed with " ++ str_of_nat (length es) ++ py " error(s)")
  | [] =>
      print rule ;;
      print (check_mark ++ py " All agent specifications passed validation!") ;;
      print rule
  end.

(** The state before anything ran: no finding, nothing printed. *)
Definition new_validator : validator := {| errors := []; stdout := [] |}.

(** [main], up to the exit code that it hands to [sys.exit].
    [AgentSpecValidator(agents_dir)] starts with no finding. *)
Definition main (repo_root : str) (agents_dir : directory) : M Z :=
  print (py "Agent Specification Validator") ;;
  print rule ;;
  print (py "Repository root: " ++ repo_root) ;;
  print (py "Agents directory: " ++ dir_path agents_dir) ;;
  print [] ;;
  success <- validate_all agents_dir ;;
  print_summary ;;
  ret (if success : bool then 0%Z else 1%Z).

(** The exit code of a run and the state that it leaves. *)
Definition exit_code (repo_root : str) (d : directory) : Z :=
  (main repo_root d new_validator).1.
Definition final_state (repo_root : str) (d : directory) : validator :=
  (main repo_root d new_validator).2.

(** * Vocabulary of the statements *)

(** [w] is a substring of [s]. *)
Definition occurs (w s : str) : Prop := ∃ a b, s = a ++ w ++ b.

(** [t] is made of lowercase letters and hyphens. *)
Definition lower_hyphens (t : str) : Prop := Forall (λ c, lower_hyphen c = true) t.

(** [t] is a telemetry token of [body]: a non-empty run of lowercase
    letters and hyphens that stands in [body] between a backquote
    followed by [agent.] and a dot. *)
Definition telemetry_token (t body : str) : Prop :=
  t ≠ [] ∧ lower_hyphens t ∧ occurs (py "`agent." ++ t ++ py ".") body.

(** The section name that a line declares, when it is a header. *)
Definition header_name (line : str) : option str :=
  (λ m, strip (group1 m)) <$> re_match header_re line.

(** The section extractor on the lines of a text. *)
Definition extract_lines (lines : list str) : gmap str str :=
  save_section (fold_left extract_step lines extract_init).

(** The lines of a body: those before the next header. *)
Fixpoint body_lines (lines : list str) : list str :=
  match lines with
  | [] => []
  | l :: ls =>
      match header_name l with
      | None => l :: body_lines ls
      | Some _ => []
      end
  end.

(** The lookahead that ends a body: the end of the text or one of the
    marks. *)
Definition stops (marks : list str) (t : str) : Prop :=
  t = [] ∨ ∃ x r, x ∈ marks ∧ t = x ++ r.

(** [(?=x1|...|xn|\Z)] *)
Definition ahead (marks : list str) : regex := foldr (λ x r, Alt (Lit x) r) EndZ marks.

(** [w\s+(.+?)(?=x1|...|xn|\Z)] under [re.DOTALL] *)
Definition body_re (w : str) (marks : list str) : regex :=
  Cat (Lit w) (Cat (PlusG isspace) (Cat (Grp (PlusL dotall)) (Look (ahead marks)))).

(** [body] is what such a pattern captures where it matches at the head
    of [s], leaving [rest]: after [w] comes whitespace, then the body,
    which is not empty and is the shortest that a mark or the end of
    the text follows; the whitespace is the longest run that leaves
    something for the body. *)
Definition body_at (w : str) (marks : list str) (s body rest : str) : Prop :=
  ∃ ws, s = w ++ ws ++ body ++ rest ∧
        ws ≠ [] ∧ Forall (λ c, isspace c = true) ws ∧
        body ≠ [] ∧ stops marks rest ∧
        (∀ b1 b2, body = b1 ++ b2 → b1 ≠ [] → b2 ≠ [] → ¬ stops marks (b2 ++ rest)) ∧
        (∀ ws' t, body ++ rest = ws' ++ t → ws' ≠ [] →
           Forall (λ c, isspace c = true) ws' → t = []).

(** [body] is what [re.search] captures for such a pattern in [content],
    leaving [rest]: the body at the leftmost position that has one. *)
Definition body_of (w : str) (marks : list str) (content body rest : str) : Prop :=
  ∃ a t, content = a ++ t ∧ body_at w marks t body rest ∧
    ∀ a1 a2, a = a1 ++ a2 → a2 ≠ [] → ∀ b r, ¬ body_at w marks (a2 ++ t) b r.

(** The tail of the header pattern, [(.+)$], matched on its own. *)
Definition title_tail (n : nat) (s : str) (g : option str) : option rmatch_result :=
  rmatch n (Cat (Grp (PlusG dot)) Eol) s g (λ s' g', Some (s', g')).

(** [below S m1 m2]: apart from [S], what [m1] binds, [m2] binds to a
    text that starts with it. *)
Definition below (S : str) (m1 m2 : gmap str str) : Prop :=
  ∀ T v1, T ≠ S → m1 !! T = Some v1 → ∃ v2, m2 !! T = Some v2 ∧ v1 `prefix_of` v2.

(** The state in which [validate_all] starts: the banner is printed. *)
Definition banner_state (repo_root : str) (d : directory) : validator :=
  {| errors := [];
     stdout := [ py "Agent Specification Validator"; rule;
                 py "Repository root: " ++ repo_root;
                 py "Agents directory: " ++ dir_path d; [] ] |}.

(** [emits m es]: running [m] appends the findings [es] to [self.errors]
    and prints nothing. *)
Definition emits (m : M unit) (es : list ValidationError) : Prop :=
  ∀ v, m v = (tt, {| errors := errors v ++ es; stdout := stdout v |}).

(** The findings of one file, validated by a fresh validator. *)
Definition file_findings (f : file) : list ValidationError :=
  errors (exec (validate_file f) new_validator).

(** The findings, by kind. *)
Definition read_error (f e : str) : ValidationError :=
  {| filename := f; error_type := py "READ_ERROR";
     details := py "Failed to read file: " ++ e |}.

Definition missing_section (f section : str) : ValidationError :=
  {| filename := f; error_type := py "MISSING_SECTION";
     details := py "Required section '## " ++ section ++ py "' not found" |}.

Definition missing_subsection (f section subsection : str) : ValidationError :=
  {| filename := f; error_type := py "MISSING_SUBSECTION";
     details := py "Required subsection '### " ++ subsection ++
                py "' not found in '## " ++ section ++ py "'" |}.

Definition missing_ownership_field (f field : str) : ValidationError :=
  {| filename := f; error_type := py "MISSING_FIELD";
     details := py "Required field '**" ++ field ++
                py ":**' not found in Ownership & Maintenance" |}.

Definition missing_role (f : str) : ValidationError :=
  {| filename := f; error_type := py "MISSING_FIELD";
     details := py "Required field '**Role:**' not found near the top of the file" |}.

Definition telemetry_naming (f : str) : ValidationError :=
  {| filename := f; error_type := py "TELEMETRY_NAMING";
     details := py "Telemetry events should follow pattern `agent." ++
                path_stem f ++ py ".*`" |}.

(** The pairs of a section and a subsection that it requires. *)
Definition subsection_pairs : list (str * str) :=
  p ← REQUIRED_SUBSECTIONS; (λ sub, (p.1, sub)) <$> p.2.

(** All that the five checks can report for a file named [f], in the
    order in which the checks run and go through the tables. *)
Definition possible_findings (f : str) : list ValidationError :=
  (missing_section f <$> REQUIRED_SECTIONS) ++
  concat ((λ p : str * list str, missing_subsection f p.1 <$> p.2) <$>
            REQUIRED_SUBSECTIONS) ++
  (missing_ownership_field f <$> REQUIRED_OWNERSHIP_FIELDS) ++
  [missing_role f] ++ [telemetry_naming f].

(** What [print_summary] prints: the banner of a run without finding,
    the last line of a run with [n] findings, and all its lines for the
    findings [es]. *)
Definition pass_banner : str :=
  check_mark ++ py " All agent specifications passed validation!".

Definition failure_line (n : nat) : str :=
  cross_mark ++ py " Validation failed with " ++ str_of_nat n ++ py " error(s)".

Definition summary_lines (es : list ValidationError) : list str :=
  match es with
  | [] => [ []; rule; pass_banner; rule ]
  | _ :: _ =>
      [ []; rule; py "VALIDATION FAILURES"; rule ] ++
      (ValidationError_str <$> es) ++ [ []; failure_line (length es) ]
  end.

(** What a run prints before the summary. *)
Definition progress_lines (repo_root : str) (d : directory) : list str :=
  stdout (validate_all d (banner_state repo_root d)).2.

(** ** Documents of the examples *)

(** Two documents for the ownership check: one whose Ownership section
    is the last and empty, one whose fields stand below a subsection
    heading. *)
Definition empty_ownership_doc : str :=
  py "# Helper\n\n## Ownership & Maintenance\n".

Definition contact_lines : list str :=
  [ py "### Contacts";
    py "- **Owner**: A"; py "- **Backup Owner**: B";
    py "- **Last Updated**: 2025-01-01"; py "- **Review Frequency**: Quarterly" ].

Definition nested_ownership_doc : str :=
  join_nl ([ py "## Ownership & Maintenance"; py "Maintained by the platform team." ] ++
           contact_lines ++ [ py "## Change Log"; py "- first version"; [] ]).

(** A conforming document, as lines: its parts up to the telemetry
    section, that section, the parts between, and the last two
    sections. *)
Definition head_lines : list str :=
  [ py "# My Agent"; py "**Role**: helper";
    py "## Agent Name"; py "myagent";
    py "## Overview"; py "An agent.";
    py "## Responsibilities";
    py "### Primary Responsibilities"; py "### Secondary Responsibilities";
    py "## Capabilities"; py "### Core Capabilities"; py "### Technical Skills";
    py "## Triggers & Activation"; py "On request.";
    py "## Operational Guidelines";
    py "### Decision Framework"; py "### Quality Standards"; py "### Constraints" ].

Definition telemetry_lines : list str :=
  [ py "## Telemetry & Monitoring";
    py "### Events to Track"; py "- `agent.myagent.started`";
    py "### Metrics to Monitor"; py "### Monitoring Dashboard" ].

Definition middle_lines : list str :=
  [ py "## Safety & Security";
    py "### Safety Considerations"; py "### Security Requirements";
    py "### Failure Handling";
    py "## Integration Points";
    py "### Dependencies"; py "### Interactions with Other Agents";
    py "## Runbooks & Documentation";
    py "### Runbook Links"; py "### Related Documentation" ].

Definition ownership_lines : list str :=
  [ py "## Ownership & Maintenance";
    py "- **Owner**: A"; py "- **Backup Owner**: B";
    py "- **Last Updated**: 2025-01-01"; py "- **Review Frequency**: Quarterly" ].

Definition conforming_lines : list str :=
  head_lines ++ telemetry_lines ++ middle_lines ++ ownership_lines ++
  [ py "## Change Log"; py "- v1" ].

(** The same document with the Change Log heading twice. *)
Definition twice_lines (second_heading : list str) : list str :=
  conforming_lines ++ second_heading ++ [ py "- v2" ].

(** A conforming document whose Events to Track subsection comes last in
    its section and names no event, and whose next section names an
    event of another agent. *)
Definition silent_events_lines (next_heading : list str) : list str :=
  head_lines ++
  [ py "## Telemetry & Monitoring";
    py "### Metrics to Monitor"; py "### Monitoring Dashboard";
    py "### Events to Track"; py "- none yet" ] ++
  next_heading ++
  [ py "Reports `agent.other.failed`.";
    py "### Safety Considerations"; py "### Security Requirements";
    py "### Failure Handling";
    py "## Integration Points";
    py "### Dependencies"; py "### Interactions with Other Agents";
    py "## Runbooks & Documentation";
    py "### Runbook Links"; py "### Related Documentation" ] ++
  ownership_lines ++ [ py "## Change Log"; py "- v1" ].

(** A document that conforms in everything else, whose Events to Track
    subsection is empty: the line after its heading is the heading of
    the next subsection, which names an event of another agent. *)
Definition empty_events_lines : list str :=
  head_lines ++
  [ py "## Telemetry & Monitoring";
    py "### Events to Track";
    py "### Metrics to Monitor"; py "- `agent.other.latency`";
    py "### Monitoring Dashboard" ] ++
  middle_lines ++ ownership_lines ++ [ py "## Change Log"; py "- v1" ].

Definition empty_events_doc : str := join_nl empty_events_lines.

(** A conforming document in which the words of the ownership heading
    come again, in a subsection heading below the fields. *)
Definition ownership_note_lines (heading : list str) : list str :=
  head_lines ++ telemetry_lines ++ middle_lines ++ heading ++
  [ py "- **Owner**: A"; py "- **Backup Owner**: B";
    py "- **Last Updated**: 2025-01-01"; py "- **Review Frequency**: Quarterly";
    py "### Ownership & Maintenance history"; py "See the change log.";
    py "## Change Log"; py "- v1" ].

(** * Properties *)

(** ** Strings *)

Example py_newline : py "a\nb" = [97; 10; 98].
Proof. reflexivity. Qed.

Example split_example : split_nl (py "## A\nx\n") = [py "## A"; py "x"; []].
Proof. reflexivity. Qed.

Lemma strip_prefix_Some w s r : strip_prefix w s = Some r ↔ s = w ++ r.
Proof.
  revert s. induction w as [|a w IH]; intros s; simpl.
  - split; congruence.
  - destruct s as [|b s]; [split; discriminate|].
    destruct (N.eqb_spec a b) as [->|Hne].
    + rewrite IH. split; [intros ->; reflexivity | intros [= ->]; reflexivity].
    + split; [discriminate | intros [= ? ?]; congruence].
Qed.

Lemma strip_prefix_app w r : strip_prefix w (w ++ r) = Some r.
Proof. by apply strip_prefix_Some. Qed.

Lemma strip_prefix_None w s : strip_prefix w s = None ↔ ∀ r, s ≠ w ++ r.
Proof.
  split.
  - intros H r Hr. apply strip_prefix_Some in Hr. congruence.
  - intros H. destruct (strip_prefix w s) as [r|] eqn:E; [|done].
    apply strip_prefix_Some in E. by destruct (H r).
Qed.

Lemma occurs_cons w c s : occurs w s → occurs w (c :: s).
Proof. intros (a & b & ->). by exists (c :: a), b. Qed.

Lemma occurs_cons_inv w c s :
  occurs w (c :: s) → strip_prefix w (c :: s) = None → occurs w s.
Proof.
  intros (a & b & E) Hn. destruct a as [|c' a].
  - simpl in E. rewrite E, strip_prefix_app in Hn. discriminate.
  - injection E as -> ->. by exists a, b.
Qed.

Lemma str_in_spec w s : str_in w s = true ↔ occurs w s.
Proof.
  induction s as [|c s IH]; simpl.
  - destruct (strip_prefix w []) as [r|] eqn:E.
    + apply strip_prefix_Some in E. split; [|done]. intros _. by exists [], r.
    + split; [done|]. intros (a & b & E').
      destruct a, w; try discriminate.
  - destruct (strip_prefix w (c :: s)) as [r|] eqn:E.
    + apply strip_prefix_Some in E. split; [|done]. intros _. by exists [], r.
    + rewrite IH. split; [apply occurs_cons|]. intros H. by eapply occurs_cons_inv.
Qed.

Lemma occurs_app_l w s t : occurs w s → occurs w (s ++ t).
Proof. intros (a & b & ->). exists a, (b ++ t). by rewrite <- !app_assoc. Qed.

Lemma occurs_app_r w s t : occurs w t → occurs w (s ++ t).
Proof. intros (a & b & ->). exists (s ++ a), b. by rewrite <- !app_assoc. Qed.

#[global] Instance occurs_dec w s : Decision (occurs w s).
Proof.
  refine (cast_if (decide (str_in w s = true))); by rewrite <- str_in_spec.
Defined.

(** What each check reports, as a list. *)
Definition sections_findings (f : str) (secs : gmap str str) : list ValidationError :=
  missing_section f <$> filter (λ rs, secs !! rs = None) REQUIRED_SECTIONS.

Definition subsections_findings (f : str) (secs : gmap str str) : list ValidationError :=
  concat ((λ '(section, subs),
            match secs !! section with
            | None => []
            | Some body =>
                missing_subsection f section <$>
                  filter (λ sub, str_in (py "### " ++ sub) body = false) subs
            end) <$> REQUIRED_SUBSECTIONS).

Definition ownership_findings (f content : str) : list ValidationError :=
  match re_search ownership_re content with
  | None => []
  | Some m =>
      missing_ownership_field f <$>
        filter (λ field, ¬ occurs (py "**" ++ field ++ py "**:") (group1 m))
          REQUIRED_OWNERSHIP_FIELDS
  end.

Definition role_findings (f content : str) : list ValidationError :=
  if decide (occurs (py "**Role**:") (take 500 content)) then [] else [missing_role f].

Definition telemetry_findings (f content : str) : list ValidationError :=
  match re_search events_re content with
  | None => []
  | Some m =>
      let events := re_findall event_pattern (group1 m) in
      if decide (events ≠ [] ∧ path_stem f ∉ events) then [telemetry_naming f] else []
  end.

(** ** Searching *)

Lemma search_from_Some n r s m :
  search_from n r s = Some m → ∃ a t, s = a ++ t ∧ match_here n r t = Some m.
Proof.
  induction s as [|c s IH]; simpl.
  - destruct (match_here n r []) eqn:E; [|done]. intros [= <-]. by exists [], [].
  - destruct (match_here n r (c :: s)) eqn:E.
    + intros [= <-]. by exists [], (c :: s).
    + intros (a & t & -> & H)%IH. by exists (c :: a), t.
Qed.

Lemma search_from_None n r s :
  search_from n r s = None ↔ ∀ a t, s = a ++ t → match_here n r t = None.
Proof.
  induction s as [|c s IH]; simpl.
  - destruct (match_here n r []) eqn:E.
    + split; [done|]. intros H. rewrite (H [] []) in E; done.
    + split; [|done]. intros _ a t Ht. by destruct a, t.
  - destruct (match_here n r (c :: s)) eqn:E.
    + split; [done|]. intros H. rewrite (H [] (c :: s)) in E; done.
    + rewrite IH. split.
      * intros H a t Ht. destruct a as [|c' a]; simpl in Ht.
        -- by subst t.
        -- injection Ht as -> ->. by eapply H.
      * intros H a t ->. by apply (H (c :: a) t).
Qed.

(** The search returns the leftmost match. *)
Lemma search_from_leftmost n r s m :
  search_from n r s = Some m ↔
  ∃ a t, s = a ++ t ∧ match_here n r t = Some m ∧
         ∀ a1 a2, a = a1 ++ a2 → a2 ≠ [] → match_here n r (a2 ++ t) = None.
Proof.
  split.
  - revert m. induction s as [|c s IH]; intros m; simpl.
    + destruct (match_here n r []) eqn:E; [|done]. intros [= <-]. exists [], [].
      repeat split; [done|]. intros a1 a2 E' Ha. by destruct a1, a2.
    + destruct (match_here n r (c :: s)) eqn:E.
      * intros [= <-]. exists [], (c :: s). repeat split; [done|].
        intros a1 a2 E' Ha. by destruct a1, a2.
      * intros (a & t & -> & H & Hl)%IH. exists (c :: a), t. repeat split; [done|].
        intros a1 a2 E' Ha. destruct a1 as [|c1 a1].
        -- simpl in E'. subst a2. done.
        -- injection E' as <- ->. by apply (Hl a1).
  - intros (a & t & -> & H & Hl). induction a as [|c a IH].
    + destruct t; simpl in *; by rewrite H.
    + pose proof (Hl [] (c :: a) eq_refl ltac:(done)) as H0.
      simpl in *. rewrite H0. apply IH.
      intros a1 a2 -> Ha. by apply (Hl (c :: a1)).
Qed.

(** A pattern that starts with literal characters matches only where
    they stand. *)
Lemma match_here_Lit_Cat n w r s m :
  match_here n (Cat (Lit w) r) s = Some m → ∃ t, s = w ++ t.
Proof.
  unfold match_here; simpl. destruct (strip_prefix w s) as [t|] eqn:E; [|done].
  apply strip_prefix_Some in E. eauto.
Qed.

Lemma re_search_Lit_Cat w r s m :
  re_search (Cat (Lit w) r) s = Some m → occurs w s.
Proof.
  intros (a & t & -> & (b & ->)%match_here_Lit_Cat)%search_from_Some. by exists a, b.
Qed.

(** Searching for literal characters is the substring test. *)
Lemma re_search_Lit w s : is_Some (re_search (Lit w) s) ↔ occurs w s.
Proof.
  unfold re_search. generalize (length s) as n. intros n. split.
  - intros [m (a & t & -> & H)%search_from_Some].
    unfold match_here in H; simpl in H.
    destruct (strip_prefix w t) as [b|] eqn:E; [|done].
    apply strip_prefix_Some in E as ->. by exists a, b.
  - intros (a & b & ->). destruct (search_from n (Lit w) (a ++ w ++ b)) eqn:E; [done|].
    rewrite search_from_None in E. specialize (E a (w ++ b) eq_refl).
    unfold match_here in E; simpl in E. by rewrite strip_prefix_app in E.
Qed.

Lemma re_search_Lit_None w s : re_search (Lit w) s = None ↔ ¬ occurs w s.
Proof. rewrite <- re_search_Lit, eq_None_not_Some. done. Qed.

(** ** Repetitions

    What a repetition matches: a run of at least one character of the
    class after which the rest of the pattern succeeds, the longest such
    run for the greedy repetition, the shortest for the lazy one. *)

Section Repetition.
Context {R : Type} (p : N → bool) (k : str → option R).

Lemma plus_greedy_None s :
  plus_greedy p s k = None ↔
  ∀ a t, s = a ++ t → a ≠ [] → Forall (λ c, p c = true) a → k t = None.
Proof.
  induction s as [|c s IH]; simpl.
  - split; [|done]. intros _ a t E Ha. by destruct a.
  - destruct (p c) eqn:Hc.
    + destruct (plus_greedy p s k) as [m|] eqn:Hg.
      * split; [done|]. intros H.
        assert (Some m = None) as [=]. apply IH.
        intros a t -> Ha Hp. apply (H (c :: a) t); [done..|]. by constructor.
      * split.
        -- intros Hk a t E Ha Hp. destruct a as [|c' a]; [done|].
           injection E as <- ->. destruct a as [|c'' a]; [done|].
           apply Forall_cons in Hp as [_ Hp]. by eapply (proj1 IH).
        -- intros H. apply (H [c] s); [done..|]. by repeat constructor.
    + split; [|done]. intros _ a t E Ha Hp. destruct a as [|c' a]; [done|].
      injection E as <- ->. apply Forall_cons in Hp as [Hp _]. congruence.
Qed.

Lemma plus_greedy_Some s m :
  plus_greedy p s k = Some m ↔
  ∃ a t, s = a ++ t ∧ a ≠ [] ∧ Forall (λ c, p c = true) a ∧ k t = Some m ∧
         ∀ a' t', t = a' ++ t' → a' ≠ [] → Forall (λ c, p c = true) a' → k t' = None.
Proof.
  split.
  - revert m. induction s as [|c s IH]; intros m; simpl; [done|].
    destruct (p c) eqn:Hc; [|done].
    destruct (plus_greedy p s k) as [m'|] eqn:Hg.
    + intros [= <-]. destruct (IH m' eq_refl) as (a & t & -> & Ha & Hp & Hk & Hmax).
      exists (c :: a), t. repeat split; [done| by constructor | done | done].
    + intros Hk. exists [c], s. repeat split; [done| by repeat constructor | done |].
      by apply plus_greedy_None.
  - intros (a & t & -> & Ha & Hp & Hk & Hmax).
    induction a as [|c a IH]; [done|]. apply Forall_cons in Hp as [Hc Hp].
    simpl. rewrite Hc. destruct a as [|c' a].
    + simpl. by rewrite (proj2 (plus_greedy_None t) Hmax).
    + by rewrite IH.
Qed.

Lemma plus_lazy_None s :
  plus_lazy p s k = None ↔
  ∀ a t, s = a ++ t → a ≠ [] → Forall (λ c, p c = true) a → k t = None.
Proof.
  induction s as [|c s IH]; simpl.
  - split; [|done]. intros _ a t E Ha. by destruct a.
  - destruct (p c) eqn:Hc.
    + destruct (k s) as [m|] eqn:Hk.
      * split; [done|]. intros H. rewrite <- Hk. apply (H [c] s); [done..|].
        by repeat constructor.
      * rewrite IH. split.
        -- intros H a t E Ha Hp. destruct a as [|c' a]; [done|].
           injection E as <- ->. destruct a as [|c'' a]; [done|].
           apply Forall_cons in Hp as [_ Hp]. by eapply H.
        -- intros H a t -> Ha Hp. apply (H (c :: a) t); [done..|]. by constructor.
    + split; [|done]. intros _ a t E Ha Hp. destruct a as [|c' a]; [done|].
      injection E as <- ->. apply Forall_cons in Hp as [Hp _]. congruence.
Qed.

Lemma plus_lazy_Some s m :
  plus_lazy p s k = Some m ↔
  ∃ a t, s = a ++ t ∧ a ≠ [] ∧ Forall (λ c, p c = true) a ∧ k t = Some m ∧
         ∀ a1 a2, a = a1 ++ a2 → a1 ≠ [] → a2 ≠ [] → k (a2 ++ t) = None.
Proof.
  split.
  - revert m. induction s as [|c s IH]; intros m; simpl; [done|].
    destruct (p c) eqn:Hc; [|done].
    destruct (k s) as [m'|] eqn:Hk.
    + intros [= <-]. exists [c], s. repeat split; [done| by repeat constructor | done |].
      intros a1 a2 E H1 H2. destruct a1 as [|? [|? ?]]; try done.
      injection E as _ E. by destruct a2.
    + intros (a & t & -> & Ha & Hp & Hkt & Hmin)%IH.
      exists (c :: a), t. repeat split; [done| by constructor | done |].
      intros a1 a2 E H1 H2. destruct a1 as [|c1 a1]; [done|].
      injection E as <- E. destruct a1 as [|c2 a1].
      * simpl in E. by subst a2.
      * apply (Hmin (c2 :: a1) a2); done.
  - intros (a & t & -> & Ha & Hp & Hk & Hmin).
    induction a as [|c a IH]; [done|]. apply Forall_cons in Hp as [Hc Hp].
    simpl. rewrite Hc. destruct a as [|c' a].
    + simpl. by rewrite Hk.
    + rewrite (Hmin [c] (c' :: a)) by done. apply IH; [done..|].
      intros a1 a2 E H1 H2. apply (Hmin (c :: a1) a2); [|done..]. by rewrite E.
Qed.
End Repetition.

(** ** Telemetry tokens *)

Lemma take_app_minus (a t : str) : take (length (a ++ t) - length t) (a ++ t) = a.
Proof.
  rewrite length_app. replace (length a + length t - length t)%nat with (length a) by lia.
  apply take_app_length.
Qed.

(** Tokens of a pattern [q w ([p]+) d]: literal characters that start
    with [q], a group that repeats the class [p], and a closing
    character [d], where neither [q] nor [d] is in the class and [q]
    does not occur again in the literal. *)
Section Tokens.
Context (q : N) (w : str) (p : N → bool) (d : N).
Hypothesis q_fresh : q ∉ w.
Hypothesis q_out : p q = false.
Hypothesis d_out : p d = false.
Hypothesis d_q : d ≠ q.

Let pat : regex := Cat (Lit (q :: w)) (Cat (Grp (PlusG p)) (Lit [d])).
Let run (t : str) : Prop := Forall (λ c, p c = true) t.

Lemma token_match n s m :
  match_here n pat s = Some m ↔
  ∃ t rest, s = (q :: w) ++ t ++ [d] ++ rest ∧ t ≠ [] ∧ run t ∧ m = (rest, Some t).
Proof.
  unfold match_here, pat. cbn [rmatch]. split.
  - destruct (strip_prefix (q :: w) s) as [s1|] eqn:E1; [|done].
    apply strip_prefix_Some in E1 as ->.
    intros (t & s2 & -> & Ht & Hp & Hk & _)%plus_greedy_Some.
    destruct (strip_prefix [d] s2) as [rest|] eqn:E2; [|done].
    apply strip_prefix_Some in E2 as ->. injection Hk as <-.
    exists t, rest. by rewrite take_app_minus.
  - intros (t & rest & -> & Ht & Hp & ->). rewrite strip_prefix_app.
    apply plus_greedy_Some. exists t, ([d] ++ rest).
    rewrite strip_prefix_app, take_app_minus. repeat split; [done..|].
    intros a' t' E Ha' Hp'. destruct a' as [|c a']; [done|].
    injection E as <- _. apply Forall_cons in Hp' as [Hd _]. congruence.
Qed.

Lemma run_closed_inj t1 r1 t2 r2 :
  run t1 → run t2 → t1 ++ [d] ++ r1 = t2 ++ [d] ++ r2 → t1 = t2.
Proof.
  intros H1. revert t2. induction H1 as [|c t1 Hc H1 IH]; intros t2 H2 E.
  - destruct H2 as [|c' t2 Hc' H2]; [done|]. injection E as <- _. congruence.
  - destruct H2 as [|c' t2 Hc' H2]; [injection E as -> _; congruence|].
    injection E as <- E. f_equal. by apply IH.
Qed.

(** The scan of [findall], when the characters still to pass do not
    hold [q], collects the tokens that start at some position. *)
Lemma findall_from_tokens n s skip t :
  q ∉ take skip s →
  t ∈ findall_from n pat s skip ↔
  ∃ a rest, s = a ++ (q :: w) ++ t ++ [d] ++ rest ∧ t ≠ [] ∧ run t.
Proof.
  revert skip. induction s as [|c s IH]; intros skip Hskip.
  - simpl. destruct (match_here n pat []) as [m|] eqn:E.
    + apply token_match in E as (? & ? & [=] & _).
    + split; [by intros ?%not_elem_of_nil|]. intros ([|? ?] & rest & [=] & _).
  - destruct skip as [|skip]; cbn [findall_from].
    + destruct (match_here n pat (c :: s)) as [m|] eqn:E.
      * apply token_match in E as (t0 & rest0 & E0 & Ht0 & Hp0 & ->).
        injection E0 as -> ->. cbn [fst group1 snd default].
        rewrite elem_of_cons, IH.
        -- split.
           ++ intros [->|(a & rest & -> & Ht & Hp)].
              ** by exists [], rest0.
              ** by exists (q :: a), rest.
           ++ intros (a & rest & E & Ht & Hp). destruct a as [|c a].
              ** left. injection E as E. symmetry.
                 apply (run_closed_inj t0 rest0 t rest Hp0 Hp).
                 by apply app_inv_head in E.
              ** right. injection E as <- ->. by exists a, rest.
        -- cbn [length]. rewrite Nat.sub_succ_l, Nat.pred_succ.
           2:{ rewrite !length_app. cbn [length]. lia. }
           assert (take (length (w ++ t0 ++ d :: rest0) - length rest0)
                     (w ++ t0 ++ d :: rest0) = w ++ t0 ++ [d]) as ->.
           { replace (w ++ t0 ++ d :: rest0) with ((w ++ t0 ++ [d]) ++ rest0)
               by (by rewrite <- !app_assoc).
             apply take_app_minus. }
           rewrite !elem_of_app. intros [H|[H|H]].
           ++ done.
           ++ eapply Forall_forall in Hp0; [|done]. simpl in Hp0. congruence.
           ++ apply list_elem_of_singleton in H. congruence.
      * rewrite IH by (intros ?%not_elem_of_nil; done). split.
        -- intros (a & rest & -> & H). by exists (c :: a), rest.
        -- intros (a & rest & E' & Ht & Hp). destruct a as [|c' a].
           ++ assert (match_here n pat (c :: s) = Some (rest, Some t)) as E''.
              { apply token_match. exists t, rest. by rewrite E'. }
              congruence.
           ++ injection E' as <- ->. by exists a, rest.
    + rewrite IH.
      * split.
        -- intros (a & rest & -> & H). by exists (c :: a), rest.
        -- intros (a & rest & E' & Ht & Hp). destruct a as [|c' a].
           ++ injection E' as -> _. exfalso. apply Hskip. left.
           ++ injection E' as <- ->. by exists a, rest.
      * intros H. apply Hskip. by right.
Qed.
End Tokens.

Lemma re_findall_tokens body t :
  t ∈ re_findall event_pattern body ↔ telemetry_token t body.
Proof.
  unfold re_findall, telemetry_token.
  change event_pattern with (Cat (Lit (96 :: py "agent.")) (Cat (Grp (PlusG lower_hyphen)) (Lit [46]))).
  rewrite (findall_from_tokens 96 (py "agent.") lower_hyphen 46);
    [|by apply (bool_decide_unpack _); vm_compute|done|done|done|apply not_elem_of_nil].
  change (py "`agent.") with (96 :: py "agent."). change (py ".") with [46].
  split.
  - intros (a & rest & -> & Ht & Hp). repeat split; [done..|].
    exists a, rest. by rewrite <- !app_assoc.
  - intros (Ht & Hp & a & rest & ->). exists a, rest. by rewrite <- !app_assoc.
Qed.

(** ** Bodies *)

Lemma ahead_Some n marks t g s' g' :
  rmatch n (ahead marks) t g (λ s g, Some (s, g)) = Some (s', g') → g' = g ∧ stops marks t.
Proof.
  induction marks as [|x marks IH]; simpl.
  - destruct t; [|done]. intros [= <- <-]. split; [done|by left].
  - destruct (strip_prefix x t) as [r|] eqn:E.
    + apply strip_prefix_Some in E as ->. intros [= <- <-]. split; [done|].
      right. exists x, r. split; [left|done].
    + intros [-> [->|(y & r & Hy & ->)]]%IH; (split; [done|]); [by left|].
      right. exists y, r. split; [by right|done].
Qed.

Lemma ahead_stops n marks t g :
  stops marks t → ∃ s', rmatch n (ahead marks) t g (λ s g, Some (s, g)) = Some (s', g).
Proof.
  induction marks as [|x marks IH]; simpl.
  - intros [->|(y & r & Hy%not_elem_of_nil & _)]; [|done]. by exists [].
  - intros Hs. destruct (strip_prefix x t) as [r|] eqn:E; [by exists r|].
    apply IH. destruct Hs as [->|(y & r & Hy & ->)]; [by left|].
    apply elem_of_cons in Hy as [->|Hy]; [by rewrite strip_prefix_app in E|].
    right. by exists y, r.
Qed.

Lemma body_match n w marks s m :
  match_here n (body_re w marks) s = Some m ↔
  ∃ body rest, body_at w marks s body rest ∧ m = (rest, Some body).
Proof.
  unfold match_here, body_re. cbn [rmatch].
  set (kk := λ (s2 s3 : str),
    match rmatch n (ahead marks) s3 (Some (take (length s2 - length s3) s2))
            (λ s g, Some (s, g)) with
    | Some (_, g') => Some (s3, g')
    | None => None
    end).
  assert (∀ body rest m, kk (body ++ rest) rest = Some m ↔
            stops marks rest ∧ m = (rest, Some body)) as Hkk.
  { intros body rest m'. unfold kk. rewrite take_app_minus. split.
    - destruct (rmatch _ _ _ _ _) as [[s' g']|] eqn:E; [|done].
      apply ahead_Some in E as [-> Hs]. by intros [= <-].
    - intros [Hs ->]. by destruct (ahead_stops n marks rest (Some body) Hs) as [s' ->]. }
  assert (∀ body rest, kk (body ++ rest) rest = None ↔ ¬ stops marks rest) as HkkN.
  { intros body rest. rewrite eq_None_not_Some. split.
    - intros Hn Hs. apply Hn. exists (rest, Some body). by apply Hkk.
    - intros Hn [m' [Hs _]%Hkk]. done. }
  assert (∀ s2 m, plus_lazy dotall s2 (kk s2) = Some m ↔
            ∃ body rest, s2 = body ++ rest ∧ body ≠ [] ∧ stops marks rest ∧
              (∀ b1 b2, body = b1 ++ b2 → b1 ≠ [] → b2 ≠ [] → ¬ stops marks (b2 ++ rest)) ∧
              m = (rest, Some body)) as Hlazy.
  { intros s2 m'. rewrite plus_lazy_Some. split.
    - intros (body & rest & -> & Hb & _ & Hk & Hmin). apply Hkk in Hk as [Hs ->].
      exists body, rest. split_and!; [done..| |done].
      intros b1 b2 -> H1 H2. specialize (Hmin b1 b2 eq_refl H1 H2).
      rewrite <- app_assoc in Hmin. by apply HkkN in Hmin.
    - intros (body & rest & -> & Hb & Hs & Hmin & ->). exists body, rest.
      split_and!; [done | done | by apply Forall_true | by apply Hkk |].
      intros b1 b2 -> H1 H2. rewrite <- app_assoc. apply HkkN. by apply (Hmin b1 b2). }
  assert (∀ s2, plus_lazy dotall s2 (kk s2) = None ↔ s2 = []) as HlazyN.
  { intros s2. split; [|by intros ->].
    intros Hn. destruct s2 as [|c s2]; [done|].
    rewrite plus_lazy_None in Hn.
    specialize (Hn (c :: s2) [] (eq_sym (app_nil_r _)) ltac:(done) ltac:(by apply Forall_true)).
    pose proof (proj2 (Hkk (c :: s2) [] ([], Some (c :: s2))) (conj (or_introl eq_refl) eq_refl)) as Hk.
    rewrite app_nil_r in Hk. congruence. }
  destruct (strip_prefix w s) as [s1|] eqn:E1.
  - apply strip_prefix_Some in E1 as ->. rewrite plus_greedy_Some. split.
    + intros (ws & s2 & -> & Hws & Hsp & Hk & Hmax).
      apply Hlazy in Hk as (body & rest & -> & Hb & Hs & Hmin & ->).
      exists body, rest. split; [|done]. exists ws. split_and!; [done..|].
      intros ws' t Et Hws' Hsp'. apply HlazyN. by eapply Hmax.
    + intros (body & rest & (ws & Es & Hws & Hsp & Hb & Hs & Hmin & Hmax) & ->).
      apply app_inv_head in Es as ->. exists ws, (body ++ rest).
      split_and!; [done..| |].
      * apply Hlazy. by exists body, rest.
      * intros ws' t Et Hws' Hsp'. apply HlazyN. by eapply Hmax.
  - split; [done|]. intros (body & rest & (ws & -> & _) & _).
    by rewrite strip_prefix_app in E1.
Qed.

Lemma re_search_body w marks content m :
  re_search (body_re w marks) content = Some m ↔
  ∃ body rest, m = (rest, Some body) ∧ body_of w marks content body rest.
Proof.
  unfold re_search. rewrite search_from_leftmost. split.
  - intros (a & t & -> & (body & rest & Hb & ->)%body_match & Hl).
    exists body, rest. split; [done|]. exists a, t. split_and!; [done..|].
    intros a1 a2 E Ha b r Hbr. specialize (Hl a1 a2 E Ha).
    assert (match_here (length (a ++ t)) (body_re w marks) (a2 ++ t) = Some (r, Some b)) as Hm
      by (apply body_match; eauto).
    congruence.
  - intros (body & rest & -> & a & t & -> & Hb & Hl).
    exists a, t. split_and!; [done|apply body_match; eauto|].
    intros a1 a2 E' Ha. apply eq_None_not_Some.
    intros [m' (b & r & Hbr & _)%body_match]. by eapply Hl.
Qed.

Lemma body_of_search w marks content body rest :
  re_search (body_re w marks) content = Some (rest, Some body) →
  body_of w marks content body rest.
Proof. intros (b & r & [= <- <-] & H)%re_search_body. done. Qed.

Lemma re_search_body_None w marks content :
  re_search (body_re w marks) content = None ↔
  ∀ a t body rest, content = a ++ t → ¬ body_at w marks t body rest.
Proof.
  unfold re_search. rewrite search_from_None. split.
  - intros H a t body rest E Hb. specialize (H a t E).
    assert (match_here (length content) (body_re w marks) t = Some (rest, Some body)) as Hm
      by (apply body_match; eauto).
    congruence.
  - intros H a t E. apply eq_None_not_Some.
    intros [m' (b & r & Hbr & _)%body_match]. by eapply H.
Qed.

(** ** What a check appends *)

Lemma emits_ret : emits (ret tt) [].
Proof. intros [e o]. unfold ret; simpl. by rewrite app_nil_r. Qed.

Lemma emits_append e : emits (append_error e) [e].
Proof. by intros v. Qed.

Lemma emits_seq m1 m2 es1 es2 :
  emits m1 es1 → emits m2 es2 → emits (m1 ;; m2) (es1 ++ es2).
Proof.
  intros H1 H2 v. unfold bind. rewrite H1, H2; simpl. by rewrite <- app_assoc.
Qed.

Lemma emits_for_each {A} (l : list A) f g :
  (∀ x, x ∈ l → emits (f x) (g x)) → emits (for_each l f) (concat (g <$> l)).
Proof.
  induction l as [|x l IH]; intros H; simpl.
  - apply emits_ret.
  - apply emits_seq.
    + apply H. left.
    + apply IH. intros y Hy. apply H. by right.
Qed.

Lemma emits_inj m es1 es2 : emits m es1 → emits m es2 → es1 = es2.
Proof.
  intros H1 H2. specialize (H1 new_validator). rewrite (H2 new_validator) in H1.
  by injection H1.
Qed.

Lemma concat_fmap_if {A B} (P : A → Prop) `{∀ x, Decision (P x)} (g : A → B) l :
  concat ((λ x, if decide (P x) then [g x] else []) <$> l) = g <$> filter P l.
Proof.
  induction l as [|x l IH]; [done|]. rewrite fmap_cons, filter_cons; simpl.
  destruct (decide (P x)); simpl; by rewrite IH.
Qed.

Lemma check_required_sections_emits f secs :
  emits (_check_required_sections f secs) (sections_findings f secs).
Proof.
  unfold _check_required_sections, sections_findings.
  rewrite <- concat_fmap_if. apply emits_for_each. intros rs _.
  destruct (decide (secs !! rs = None)) as [->|Hs]; [apply emits_append|].
  destruct (secs !! rs); [apply emits_ret | done].
Qed.

Lemma check_required_subsections_emits f content secs :
  emits (_check_required_subsections f content secs) (subsections_findings f secs).
Proof.
  unfold _check_required_subsections, subsections_findings.
  apply emits_for_each. intros [section subs] _.
  destruct (secs !! section) as [body|]; [|apply emits_ret].
  rewrite <- concat_fmap_if. apply emits_for_each. intros sub _.
  destruct (str_in (py "### " ++ sub) body);
    [rewrite decide_False by done | rewrite decide_True by done].
  - apply emits_ret.
  - apply emits_append.
Qed.

Lemma check_ownership_fields_emits f content :
  emits (_check_ownership_fields f content) (ownership_findings f content).
Proof.
  unfold _check_ownership_fields, ownership_findings.
  destruct (re_search ownership_re content) as [m|]; [|apply emits_ret].
  rewrite <- concat_fmap_if. apply emits_for_each. intros field _.
  unfold field_pattern.
  destruct (decide (¬ occurs (py "**" ++ field ++ py "**:") (group1 m))) as [Hn|Hy].
  - apply re_search_Lit_None in Hn. rewrite Hn. apply emits_append.
  - apply dec_stable, re_search_Lit in Hy. destruct Hy as [x ->]. apply emits_ret.
Qed.

Lemma check_role_field_emits f content :
  emits (_check_role_field f content) (role_findings f content).
Proof.
  unfold _check_role_field, role_findings, role_re.
  destruct (decide (occurs (py "**Role**:") (take 500 content))) as [Hy|Hn].
  - apply re_search_Lit in Hy. destruct Hy as [x ->]. apply emits_ret.
  - apply re_search_Lit_None in Hn. rewrite Hn. apply emits_append.
Qed.

Lemma check_telemetry_events_emits f content :
  emits (_check_telemetry_events f content) (telemetry_findings f content).
Proof.
  unfold _check_telemetry_events, telemetry_findings.
  destruct (re_search events_re content) as [m|]; [|apply emits_ret].
  cbv zeta. destruct (re_findall event_pattern (group1 m)) as [|e es] eqn:E.
  - rewrite decide_False by (intros [Hne _]; by apply Hne). apply emits_ret.
  - destruct (filter _ (e :: es)) as [|c cs] eqn:Ef.
    + rewrite decide_True; [apply emits_append|]. split; [done|].
      intros Hin. assert (path_stem f ∈ filter (λ x, x = path_stem f) (e :: es)) as Hc
        by (by apply list_elem_of_filter).
      rewrite Ef in Hc. by apply not_elem_of_nil in Hc.
    + rewrite decide_False; [apply emits_ret|]. intros [_ Hn].
      assert (c ∈ filter (λ x, x = path_stem f) (e :: es)) as Hc by (rewrite Ef; left).
      apply list_elem_of_filter in Hc as [-> Hc]. done.
Qed.

(** The findings of a file that was read: those of the five checks, in
    the order the checks run. *)
Definition content_findings (f content : str) : list ValidationError :=
  sections_findings f (_extract_sections content) ++
  subsections_findings f (_extract_sections content) ++
  ownership_findings f content ++
  role_findings f content ++
  telemetry_findings f content.

Lemma validate_file_run f v :
  exec (validate_file f) v =
  {| errors := errors v ++
               match read_text f with
               | inl e => [read_error (name f) e]
               | inr content => content_findings (name f) content
               end;
     stdout := stdout v ++ [page_mark ++ py " Validating " ++ name f ++ py "..."] |}.
Proof.
  unfold validate_file, exec, bind at 1. simpl.
  destruct (read_text f) as [e|content].
  - reflexivity.
  - pose proof (emits_seq _ _ _ _ (check_required_sections_emits (name f) (_extract_sections content))
      (emits_seq _ _ _ _ (check_required_subsections_emits (name f) content (_extract_sections content))
      (emits_seq _ _ _ _ (check_ownership_fields_emits (name f) content)
      (emits_seq _ _ _ _ (check_role_field_emits (name f) content)
                         (check_telemetry_events_emits (name f) content))))) as H.
    rewrite H. reflexivity.
Qed.

Lemma file_findings_eq f :
  file_findings f =
  match read_text f with
  | inl e => [read_error (name f) e]
  | inr content => content_findings (name f) content
  end.
Proof. unfold file_findings. by rewrite validate_file_run. Qed.

Lemma validate_files_run l v :
  exec (for_each l validate_file) v =
  {| errors := errors v ++ concat (file_findings <$> l);
     stdout := stdout v ++
               ((λ f, page_mark ++ py " Validating " ++ name f ++ py "...") <$> l) |}.
Proof.
  revert v. induction l as [|f l IH]; intros v; simpl.
  - destruct v. unfold exec, ret; simpl. by rewrite !app_nil_r.
  - unfold exec, bind in *. pose proof (validate_file_run f v) as Hf.
    unfold exec in Hf. destruct (validate_file f v) as [[] v']. simpl in Hf. subst v'.
    rewrite IH. simpl. rewrite file_findings_eq, <- !app_assoc. reflexivity.
Qed.

(** ** The run *)

Lemma insert_sorted_perm f l : insert_sorted f l ≡ₚ f :: l.
Proof.
  induction l as [|g l IH]; simpl; [done|].
  destruct (str_le (name f) (name g)); [done|].
  rewrite IH. apply Permutation_swap.
Qed.

Lemma sorted_perm l : sorted l ≡ₚ l.
Proof.
  induction l as [|f l IH]; simpl; [done|].
  by rewrite insert_sorted_perm, IH.
Qed.

Lemma validate_all_run d v :
  validate_all d v =
  match dir_entries d with
  | None =>
      (false,
       {| errors := errors v;
          stdout := stdout v ++
                    [cross_mark ++ py " Error: Directory " ++ dir_path d ++
                     py " does not exist"] |})
  | Some entries =>
      match agent_files entries with
      | [] =>
          (true,
           {| errors := errors v;
              stdout := stdout v ++
                        [warning_mark ++
                         py "  Warning: No agent specification files found in " ++
                         dir_path d] |})
      | files =>
          let found := errors v ++ concat (file_findings <$> sorted files) in
          (bool_decide (length found = 0%nat),
           {| errors := found;
              stdout :=
                (stdout v ++
                 [glass_mark ++ py " Validating " ++ str_of_nat (length files) ++
                  py " agent specification(s)...\n"]) ++
                ((λ f, page_mark ++ py " Validating " ++ name f ++ py "...") <$>
                   sorted files) |})
      end
  end.
Proof.
  unfold validate_all. destruct (dir_entries d) as [entries|]; [|reflexivity].
  destruct (agent_files entries) as [|f files] eqn:E; [reflexivity|].
  unfold bind at 1. simpl print. cbv beta iota.
  unfold bind at 1.
  pose proof (validate_files_run (sorted (f :: files))
    {| errors := errors v; stdout := stdout v ++
         [glass_mark ++ py " Validating " ++ str_of_nat (length (f :: files)) ++
          py " agent specification(s)...\n"] |}) as H.
  unfold exec in H. unfold print. cbn [errors stdout].
  destruct (for_each (sorted (f :: files)) validate_file _) as [[] v'].
  cbn [snd] in H. subst v'. reflexivity.
Qed.

Lemma print_summary_errors v : errors (exec print_summary v) = errors v.
Proof.
  unfold print_summary, exec, bind, print, get_errors; cbn [fst snd errors stdout].
  destruct (errors v) as [|e es] eqn:E; cbn [errors snd]; [done|].
  set (v0 := {| errors := _; stdout := _ |}).
  assert (errors v0 = e :: es) as <- by done. clearbody v0. clear.
  assert (∀ l w, errors (for_each l (λ error w0, (tt, {| errors := errors w0;
             stdout := stdout w0 ++ [ValidationError_str error] |})) w).2 = errors w) as Hl.
  { induction l as [|x l IH]; intros w; simpl; [done|]. unfold bind. by rewrite IH. }
  specialize (Hl (errors v0) v0).
  destruct (for_each _ _ v0) as [[] w]. done.
Qed.

Lemma main_run repo_root d :
  main repo_root d new_validator =
  (if (validate_all d (banner_state repo_root d)).1 then 0%Z else 1%Z,
   exec print_summary (validate_all d (banner_state repo_root d)).2).
Proof.
  unfold main, exec. unfold bind at 1 2 3 4 5. cbn [print new_validator errors stdout app].
  fold (banner_state repo_root d). unfold bind.
  destruct (validate_all d (banner_state repo_root d)) as [b v]; cbn [fst snd].
  destruct (print_summary v) as [[] v']. reflexivity.
Qed.

Lemma final_errors repo_root d :
  errors (final_state repo_root d) =
  match dir_entries d with
  | None => []
  | Some entries => concat (file_findings <$> sorted (agent_files entries))
  end.
Proof.
  unfold final_state. rewrite main_run. cbn [fst snd].
  rewrite print_summary_errors, validate_all_run.
  destruct (dir_entries d) as [entries|]; [|done].
  destruct (agent_files entries); done.
Qed.

Lemma exit_code_eq repo_root d :
  exit_code repo_root d =
  match dir_entries d with
  | None => 1%Z
  | Some entries =>
      if bool_decide (concat (file_findings <$> sorted (agent_files entries)) = [])
      then 0%Z else 1%Z
  end.
Proof.
  unfold exit_code. rewrite main_run. cbn [fst snd]. rewrite validate_all_run.
  destruct (dir_entries d) as [entries|]; [|done].
  destruct (agent_files entries) as [|f l]; [done|].
  cbn [fst banner_state errors app].
  generalize (concat (file_findings <$> sorted (f :: l))). intros l'.
  destruct l'; done.
Qed.

(** C7. The exit code is 0 exactly when the directory exists and the
    run leaves no finding, the findings being those of all candidate
    documents together; a directory without candidate documents exits
    with 0; a missing directory exits with 1, no document is validated
    (no progress line is printed, no finding recorded); an exit code that
    is not 0 is 1. *)
Theorem exit_code_spec (repo_root : str) (d : directory) :
  (exit_code repo_root d = 0%Z ↔
     is_Some (dir_entries d) ∧ length (errors (final_state repo_root d)) = 0%nat) ∧
  (exit_code repo_root d ≠ 0%Z → exit_code repo_root d = 1%Z) ∧
  (∀ entries, dir_entries d = Some entries →
     errors (final_state repo_root d) =
       concat (file_findings <$> sorted (agent_files entries)) ∧
     (agent_files entries = [] → exit_code repo_root d = 0%Z) ∧
     (exit_code repo_root d = 0%Z ↔ ∀ f, f ∈ agent_files entries → file_findings f = [])) ∧
  (dir_entries d = None →
     exit_code repo_root d = 1%Z ∧
     final_state repo_root d =
       {| errors := [];
          stdout := [ py "Agent Specification Validator"; rule;
                      py "Repository root: " ++ repo_root;
                      py "Agents directory: " ++ dir_path d; [];
                      cross_mark ++ py " Error: Directory " ++ dir_path d ++
                        py " does not exist";
                      []; rule;
                      check_mark ++ py " All agent specifications passed validation!";
                      rule ] |}).
Proof.
  rewrite exit_code_eq, final_errors. split; [|split; [|split]].
  - destruct (dir_entries d) as [entries|].
    + case_bool_decide as Hc.
      * rewrite Hc. by split.
      * split; [done|]. intros [_ Hl]. by destruct (concat _).
    + split; [done|]. by intros [[? [=]] _].
  - destruct (dir_entries d) as [entries|]; [|done]. by case_bool_decide.
  - intros entries ->. split; [done|]. split.
    + by intros ->.
    + assert (concat (file_findings <$> sorted (agent_files entries)) = [] ↔
              ∀ f, f ∈ agent_files entries → file_findings f = []) as Hiff.
      { setoid_rewrite <- (sorted_perm (agent_files entries)) at 2.
        generalize (sorted (agent_files entries)). intros l.
        induction l as [|g l IH]; [by split; [intros _ f Hf%not_elem_of_nil|]|].
        rewrite fmap_cons. simpl. split.
        - intros [Hg Hl]%app_eq_nil f [->|Hf]%elem_of_cons; [done|]. by apply IH.
        - intros Hall. rewrite (Hall g) by left. apply IH. intros f Hf. apply Hall. by right. }
      rewrite <- Hiff. case_bool_decide; by split.
  - intros Hd. rewrite Hd. split; [done|].
    unfold final_state. rewrite main_run. cbn [fst snd]. rewrite validate_all_run, Hd.
    reflexivity.
Qed.

Lemma exit_code_spec_witness :
  exit_code (py "/repo") {| dir_path := py "/repo/docs/agents"; dir_entries := None |} = 1%Z ∧
  exit_code (py "/repo") {| dir_path := py "/repo/docs/agents";
                            dir_entries := Some [ {| name := py "README.md";
                                                     read_text := inr (py "# Agents") |} ] |} = 0%Z.
Proof.
  split.
  - destruct (exit_code_spec (py "/repo")
      {| dir_path := py "/repo/docs/agents"; dir_entries := None |}) as (_ & _ & _ & H).
    apply H. reflexivity.
  - destruct (exit_code_spec (py "/repo")
      {| dir_path := py "/repo/docs/agents";
         dir_entries := Some [ {| name := py "README.md";
                                  read_text := inr (py "# Agents") |} ] |}) as (_ & _ & H & _).
    destruct (H _ eq_refl) as (_ & H0 & _). apply H0. vm_compute. reflexivity.
Defined.

(** C8. A document whose text cannot be read yields exactly one finding,
    of kind READ_ERROR, and no finding of any other check; the run goes
    on: its findings are the findings of the documents before it, this
    one finding, and the findings of the documents after it, each
    document's findings being those it has on its own. *)
Theorem read_error_isolated (d : directory) (entries : list file) (f : file) (e : str) :
  dir_entries d = Some entries →
  f ∈ agent_files entries →
  read_text f = inl e →
  file_findings f = [read_error (name f) e] ∧
  error_type (read_error (name f) e) = py "READ_ERROR" ∧
  ∃ before after,
    sorted (agent_files entries) = before ++ f :: after ∧
    errors (exec (validate_all d) new_validator) =
      concat (file_findings <$> before) ++ [read_error (name f) e] ++
      concat (file_findings <$> after).
Proof.
  intros Hd Hf He.
  assert (file_findings f = [read_error (name f) e]) as Hff
    by (by rewrite file_findings_eq, He).
  split; [done|]. split; [done|].
  rewrite <- (sorted_perm (agent_files entries)) in Hf.
  apply list_elem_of_split in Hf as (before & after & Hs).
  exists before, after. split; [done|].
  unfold exec. rewrite validate_all_run, Hd.
  assert (agent_files entries ≠ []) as Hne.
  { intros Hnil. rewrite Hnil in Hs. by destruct before. }
  destruct (agent_files entries) as [|g l]; [done|].
  cbn [snd errors]. rewrite Hs, fmap_app, concat_app, fmap_cons. simpl. by rewrite Hff.
Qed.

Lemma read_error_isolated_witness :
  file_findings {| name := py "broken.md"; read_text := inl (py "invalid start byte") |} =
    [read_error (py "broken.md") (py "invalid start byte")].
Proof.
  apply (read_error_isolated
    {| dir_path := py "docs/agents";
       dir_entries := Some [ {| name := py "broken.md";
                                read_text := inl (py "invalid start byte") |};
                             {| name := py "a.md"; read_text := inr (py "") |} ] |}
    [ {| name := py "broken.md"; read_text := inl (py "invalid start byte") |};
      {| name := py "a.md"; read_text := inr (py "") |} ]
    {| name := py "broken.md"; read_text := inl (py "invalid start byte") |}
    (py "invalid start byte")).
  - reflexivity.
  - vm_compute. left.
  - reflexivity.
Defined.

(** C6. The Role check looks at the first 500 characters of the text and
    nowhere else: it reports nothing when the label [**Role**:] occurs in
    them, one MISSING_FIELD finding when it does not, and a label that
    stands after the first 500 characters does not prevent the finding. *)
Theorem check_role_field_window (f content : str) :
  (occurs (py "**Role**:") (take 500 content) → emits (_check_role_field f content) []) ∧
  (¬ occurs (py "**Role**:") (take 500 content) →
     emits (_check_role_field f content) [missing_role f] ∧
     error_type (missing_role f) = py "MISSING_FIELD") ∧
  (∀ a b, content = a ++ py "**Role**:" ++ b → (500 ≤ length a)%nat →
     ¬ occurs (py "**Role**:") a →
     emits (_check_role_field f content) [missing_role f]).
Proof.
  pose proof (check_role_field_emits f content) as H. unfold role_findings in H.
  split; [|split].
  - intros Hy. by rewrite decide_True in H.
  - intros Hn. by rewrite decide_False in H.
  - intros a b -> Hlen Hn. rewrite decide_False in H; [done|].
    rewrite take_app_le by done. intros (x & y & Hxy). apply Hn.
    rewrite <- (take_drop 500 a), Hxy. exists x, (y ++ drop 500 a).
    by rewrite <- !app_assoc.
Qed.

Lemma check_role_field_window_witness :
  emits (_check_role_field (py "a.md") (replicate 500 32 ++ py "**Role**:" ++ py " Helper"))
        [missing_role (py "a.md")].
Proof.
  apply (proj2 (proj2 (check_role_field_window (py "a.md")
           (replicate 500 32 ++ py "**Role**:" ++ py " Helper")))
         (replicate 500 32) (py " Helper")).
  - reflexivity.
  - rewrite length_replicate. lia.
  - intros H%str_in_spec. vm_compute in H. discriminate.
Defined.

(** ** The telemetry check *)

Lemma events_re_body : events_re = body_re (py "### Events to Track") [py "\n###"; py "\n##"].
Proof. reflexivity. Qed.

Lemma ownership_re_body : ownership_re = body_re (py "## Ownership & Maintenance") [py "\n##"].
Proof. reflexivity. Qed.

Lemma telemetry_findings_body f content body rest :
  body_of (py "### Events to Track") [py "\n###"; py "\n##"] content body rest →
  telemetry_findings f content =
    if decide (re_findall event_pattern body ≠ [] ∧ path_stem f ∉ re_findall event_pattern body)
    then [telemetry_naming f] else [].
Proof.
  intros Hb. unfold telemetry_findings.
  rewrite events_re_body, (proj2 (re_search_body _ _ _ (rest, Some body))) by eauto.
  reflexivity.
Qed.

Lemma telemetry_findings_no_body f content :
  (∀ body rest, ¬ body_of (py "### Events to Track") [py "\n###"; py "\n##"] content body rest) →
  telemetry_findings f content = [].
Proof.
  intros Hn. unfold telemetry_findings. rewrite events_re_body.
  destruct (re_search _ content) as [m|] eqn:E; [|done].
  apply re_search_body in E as (body & rest & _ & Hb). by destruct (Hn body rest).
Qed.

Lemma tokens_nonempty body :
  re_findall event_pattern body ≠ [] ↔ ∃ t, telemetry_token t body.
Proof.
  split.
  - destruct (re_findall event_pattern body) as [|t l] eqn:E; [done|]. intros _.
    exists t. apply re_findall_tokens. rewrite E. left.
  - intros [t Ht%re_findall_tokens] E. rewrite E in Ht. by apply not_elem_of_nil in Ht.
Qed.

(** C2, where the script departs from it. In [empty_events_doc] the
    Events to Track subsection is there and empty: its heading is
    followed at once by the heading of Metrics to Monitor, so its body
    holds no token. The pattern of the check needs one character after
    the heading and the whitespace; it takes the text of the next
    subsection, heading included, up to the heading after it, collects
    the token [other] there, and the check reports TELEMETRY_NAMING,
    the only finding of a document that conforms in everything else. *)
Theorem telemetry_events_divergence :
  occurs (py "### Events to Track\n### Metrics to Monitor\n") empty_events_doc ∧
  _extract_sections empty_events_doc !! py "Telemetry & Monitoring" =
    Some (join_nl [ py "### Events to Track";
                    py "### Metrics to Monitor"; py "- `agent.other.latency`";
                    py "### Monitoring Dashboard" ]) ∧
  (∃ rest, re_search events_re empty_events_doc =
             Some (rest, Some (py "### Metrics to Monitor\n- `agent.other.latency`")) ∧
           py "\n### Monitoring Dashboard" `prefix_of` rest) ∧
  re_findall event_pattern (py "### Metrics to Monitor\n- `agent.other.latency`") =
    [py "other"] ∧
  emits (_check_telemetry_events (py "myagent.md") empty_events_doc)
    [telemetry_naming (py "myagent.md")] ∧
  file_findings {| name := py "myagent.md"; read_text := inr empty_events_doc |} =
    [telemetry_naming (py "myagent.md")].
Proof.
  split_and!.
  - by apply (bool_decide_unpack _); vm_compute.
  - by vm_compute.
  - eexists. split; [by vm_compute|]. by apply (bool_decide_unpack _); vm_compute.
  - by vm_compute.
  - assert (telemetry_findings (py "myagent.md") empty_events_doc =
            [telemetry_naming (py "myagent.md")]) as <- by (by vm_compute).
    apply check_telemetry_events_emits.
  - by vm_compute.
Qed.

(** X16. The telemetry check as it behaves. It looks at the text that
    its pattern captures: after the heading of Events to Track and
    whitespace, the shortest text, not empty, that a heading mark or the
    end of the text follows. In that text it collects every token [t]
    of lowercase letters and hyphens that stands between a backquote
    followed by [agent.] and a dot. With at least one token and none
    equal to the identity of the document it reports one
    TELEMETRY_NAMING finding; with no token, or with the identity among
    the tokens, it reports nothing; and it reports nothing when the
    heading does not occur in the text or the pattern captures
    nothing. *)
Theorem check_telemetry_events_spec (f content : str) :
  (¬ occurs (py "### Events to Track") content →
     emits (_check_telemetry_events f content) []) ∧
  ((∀ body rest,
      ¬ body_of (py "### Events to Track") [py "\n###"; py "\n##"] content body rest) →
     emits (_check_telemetry_events f content) []) ∧
  (∀ body rest,
     body_of (py "### Events to Track") [py "\n###"; py "\n##"] content body rest →
     (∀ t, t ∈ re_findall event_pattern body ↔ telemetry_token t body) ∧
     ((∃ t, telemetry_token t body) → ¬ telemetry_token (path_stem f) body →
        emits (_check_telemetry_events f content) [telemetry_naming f] ∧
        error_type (telemetry_naming f) = py "TELEMETRY_NAMING") ∧
     (telemetry_token (path_stem f) body →
        emits (_check_telemetry_events f content) []) ∧
     ((∀ t, ¬ telemetry_token t body) →
        emits (_check_telemetry_events f content) [])).
Proof.
  pose proof (check_telemetry_events_emits f content) as He.
  split_and!.
  - intros Hn. unfold telemetry_findings in He.
    destruct (re_search events_re content) as [m|] eqn:E; [|done].
    apply re_search_Lit_Cat in E. done.
  - intros Hn. by rewrite telemetry_findings_no_body in He.
  - intros body rest Hb. rewrite (telemetry_findings_body _ _ _ _ Hb) in He.
    split_and!.
    + intros t. apply re_findall_tokens.
    + intros Ht Hs. split; [|done]. rewrite decide_True in He; [done|].
      split; [by apply tokens_nonempty|]. by rewrite re_findall_tokens.
    + intros Hs. rewrite decide_False in He; [done|].
      intros [_ Hn]. by rewrite re_findall_tokens in Hn.
    + intros Hn. rewrite decide_False in He; [done|].
      intros [[t Ht]%tokens_nonempty _]. by apply (Hn t).
Qed.

(** C10. When the identity of the document, the file name without its
    extension, has a character that is neither a lowercase letter nor a
    hyphen, and the body of Events to Track holds at least one token,
    the telemetry check reports TELEMETRY_NAMING: no token can equal
    such an identity. *)
Theorem telemetry_identity_outside_alphabet (f content body rest : str) :
  body_of (py "### Events to Track") [py "\n###"; py "\n##"] content body rest →
  (∃ t, telemetry_token t body) →
  (∃ c, c ∈ path_stem f ∧ lower_hyphen c = false) →
  (∀ t, telemetry_token t body → t ≠ path_stem f) ∧
  emits (_check_telemetry_events f content) [telemetry_naming f].
Proof.
  intros Hb Ht (c & Hc & Hout).
  assert (∀ t, telemetry_token t body → t ≠ path_stem f) as Hne.
  { intros t (_ & Hlh & _) ->. eapply Forall_forall in Hlh; [|done]. simpl in Hlh. congruence. }
  split; [done|].
  pose proof (check_telemetry_events_emits f content) as He.
  rewrite (telemetry_findings_body _ _ _ _ Hb), decide_True in He; [done|].
  split; [by apply tokens_nonempty|].
  intros Hin%re_findall_tokens. by apply (Hne _ Hin).
Qed.

Lemma check_telemetry_events_spec_witness :
  emits (_check_telemetry_events (py "myagent.md")
           (py "### Events to Track\n- `agent.otheragent.started`\n## Next\n"))
        [telemetry_naming (py "myagent.md")] ∧
  emits (_check_telemetry_events (py "myagent.md")
           (py "### Events to Track\n- none yet\n## Next\n")) [].
Proof.
  split.
  - destruct (check_telemetry_events_spec (py "myagent.md")
      (py "### Events to Track\n- `agent.otheragent.started`\n## Next\n")) as (_ & _ & H).
    destruct (H (py "- `agent.otheragent.started`") (py "\n## Next\n")) as (_ & H2 & _ & _).
    { apply body_of_search. vm_compute. reflexivity. }
    apply H2.
    + exists (py "otheragent"). unfold telemetry_token, lower_hyphens.
      apply (bool_decide_unpack _). vm_compute. exact I.
    + unfold telemetry_token, lower_hyphens.
      apply (bool_decide_unpack _). vm_compute. exact I.
  - destruct (check_telemetry_events_spec (py "myagent.md")
      (py "### Events to Track\n- none yet\n## Next\n")) as (_ & _ & H).
    destruct (H (py "- none yet") (py "\n## Next\n")) as (Ht & _ & _ & H4).
    { apply body_of_search. vm_compute. reflexivity. }
    apply H4. intros t Hin%Ht. vm_compute in Hin. by apply not_elem_of_nil in Hin.
Defined.

Lemma telemetry_identity_outside_alphabet_witness :
  emits (_check_telemetry_events (py "Agent_2.md")
           (py "### Events to Track\n- `agent.agent.started`\n"))
        [telemetry_naming (py "Agent_2.md")].
Proof.
  apply (telemetry_identity_outside_alphabet (py "Agent_2.md")
           (py "### Events to Track\n- `agent.agent.started`\n")
           (py "- `agent.agent.started`\n") []).
  - apply body_of_search. vm_compute. reflexivity.
  - exists (py "agent"). unfold telemetry_token, lower_hyphens.
    apply (bool_decide_unpack _). vm_compute. exact I.
  - exists 65. split; [|reflexivity]. vm_compute. left.
Defined.

(** ** The identity of a document *)

Lemma elem_of_concat {A} (x : A) (ls : list (list A)) :
  x ∈ concat ls ↔ ∃ l, l ∈ ls ∧ x ∈ l.
Proof.
  rewrite list_elem_of_In, in_concat. setoid_rewrite list_elem_of_In. done.
Qed.

Lemma content_findings_filename f content e :
  e ∈ content_findings f content → filename e = f.
Proof.
  unfold content_findings, sections_findings, subsections_findings, ownership_findings,
    role_findings, telemetry_findings.
  rewrite !elem_of_app. intros [H|[H|[H|[H|H]]]].
  - by apply list_elem_of_fmap in H as (? & -> & _).
  - apply elem_of_concat in H as (l & Hl & He).
    apply list_elem_of_fmap in Hl as ([section subs] & -> & _).
    destruct (_extract_sections content !! section); [|by apply not_elem_of_nil in He].
    by apply list_elem_of_fmap in He as (? & -> & _).
  - destruct (re_search ownership_re content); [|by apply not_elem_of_nil in H].
    by apply list_elem_of_fmap in H as (? & -> & _).
  - case_decide; [by apply not_elem_of_nil in H|]. by apply list_elem_of_singleton in H as ->.
  - destruct (re_search events_re content); [|by apply not_elem_of_nil in H].
    cbv zeta in H. case_decide; [|by apply not_elem_of_nil in H].
    by apply list_elem_of_singleton in H as ->.
Qed.

Lemma file_findings_filename f e : e ∈ file_findings f → filename e = name f.
Proof.
  rewrite file_findings_eq. destruct (read_text f) as [msg|content].
  - by intros ->%list_elem_of_singleton.
  - apply content_findings_filename.
Qed.

Lemma split_on_absent sep s : sep ∉ s → split_on sep s = [s].
Proof.
  induction s as [|c s IH]; [done|]. intros Hn. simpl.
  destruct (N.eqb_spec c sep) as [->|Hne]; [exfalso; apply Hn; left|].
  rewrite IH; [done|]. intros H. apply Hn. by right.
Qed.






(** ** Section headers *)

Lemma lstrip_spaces ws t : Forall (λ c, isspace c = true) ws → lstrip (ws ++ t) = lstrip t.
Proof. induction 1 as [|c ws Hc _ IH]; [done|]. simpl. by rewrite Hc. Qed.

Lemma strip_spaces ws t : Forall (λ c, isspace c = true) ws → strip (ws ++ t) = strip t.
Proof. intros H. unfold strip. by rewrite lstrip_spaces. Qed.

(** On text without newline the tail of the header pattern takes all of
    it, and needs one character. *)
Lemma title_match n s g m :
  nl ∉ s →
  title_tail n s g = Some m ↔ s ≠ [] ∧ m = ([], Some s).
Proof.
  intros Hnl. unfold title_tail. cbn [rmatch]. rewrite plus_greedy_Some. split.
  - intros (a & t & -> & Ha & Hp & Hk & _).
    destruct t as [|c [|c' t]]; [| |done].
    + injection Hk as <-. rewrite app_nil_r, Nat.sub_0_r, firstn_all. by destruct a.
    + destruct (N.eqb_spec c nl) as [->|]; [|done]. exfalso. apply Hnl.
      rewrite elem_of_app. right. left.
  - intros [Hs ->]. exists s, []. rewrite app_nil_r. split_and!; [done..| | |].
    + apply Forall_forall. intros c Hc. unfold dot.
      destruct (N.eqb_spec c nl) as [->|]; done.
    + cbn [length]. by rewrite Nat.sub_0_r, firstn_all.
    + intros a' t' E. by destruct a'.
Qed.

Lemma header_match line m :
  nl ∉ line →
  re_match header_re line = Some m ↔
  ∃ ws title, line = py "##" ++ ws ++ title ∧
              ws ≠ [] ∧ Forall (λ c, isspace c = true) ws ∧ title ≠ [] ∧
              (∀ a t, title = a ++ t → a ≠ [] → Forall (λ c, isspace c = true) a → t = []) ∧
              m = ([], Some title).
Proof.
  intros Hnl. unfold re_match, match_here, header_re.
  cbn [rmatch]. rewrite Nat.eqb_refl.
  destruct (strip_prefix (py "##") line) as [r|] eqn:E.
  - apply strip_prefix_Some in E as ->.
    change (plus_greedy isspace r ?k) with
      (plus_greedy isspace r (λ s', title_tail (length (py "##" ++ r)) s' None)).
    assert (∀ a t, r = a ++ t → nl ∉ t) as Ht.
    { intros a t -> H. apply Hnl. rewrite !elem_of_app. auto. }
    rewrite plus_greedy_Some. split.
    + intros (ws & title & -> & Hws & Hsp & Hk & Hmax).
      apply title_match in Hk as [Hti ->]; [|by eapply Ht].
      exists ws, title. split_and!; [done..| |done].
      intros a t -> Ha Hsa. specialize (Hmax a t eq_refl Ha Hsa).
      destruct t as [|c t]; [done|].
      assert (Some ([], Some (c :: t)) = @None rmatch_result) as [=].
      rewrite <- Hmax. symmetry. apply title_match; [|done].
      eapply (Ht (ws ++ a)). by rewrite <- app_assoc.
    + intros (ws & title & E & Hws & Hsp & Hti & Hmax & ->).
      apply app_inv_head in E as ->. exists ws, title. split_and!; [done..| |].
      * apply title_match; [by eapply Ht|done].
      * intros a t -> Ha Hsa. rewrite (Hmax a t) by done. done.
  - split; [done|]. intros (ws & title & -> & _). by rewrite strip_prefix_app in E.
Qed.

Lemma header_match_None line :
  nl ∉ line →
  re_match header_re line = None ↔
  ∀ ws title, line = py "##" ++ ws ++ title → ws ≠ [] →
              Forall (λ c, isspace c = true) ws → title = [].
Proof.
  intros Hnl. unfold re_match, match_here, header_re.
  cbn [rmatch]. rewrite Nat.eqb_refl.
  destruct (strip_prefix (py "##") line) as [r|] eqn:E.
  - apply strip_prefix_Some in E as ->.
    change (plus_greedy isspace r ?k) with
      (plus_greedy isspace r (λ s', title_tail (length (py "##" ++ r)) s' None)). rewrite plus_greedy_None. split.
    + intros H ws title E Hws Hsp. apply app_inv_head in E as ->.
      specialize (H ws title eq_refl Hws Hsp). destruct title as [|c t]; [done|].
      assert (Some ([], Some (c :: t)) = @None rmatch_result) as [=].
      rewrite <- H. symmetry. apply title_match; [|done].
      intros Hin. apply Hnl. rewrite !elem_of_app. auto.
    + intros H ws title -> Hws Hsp. rewrite (H ws title) by done. done.
  - split; [|done]. intros _ ws title ->. by rewrite strip_prefix_app in E.
Qed.



(** A title of whitespace alone: the line matches the pattern, the name
    is empty, and the extractor closes the open section without opening
    one. *)
Example blank_title :
  header_name (py "##  ") = Some [] ∧
  extract_lines [py "## A"; py "x"; py "##  "; py "y"] = {[ py "A" := py "x" ]}.
Proof. split; by vm_compute. Qed.

(** ** The section map *)

Lemma extract_step_header x line S :
  header_name line = Some S →
  extract_step x line =
    {| sections := save_section x; current_section := Some S; current_content := [] |}.
Proof.
  unfold header_name, extract_step. destruct (re_match header_re line); [|done].
  by intros [= <-].
Qed.

Lemma extract_step_body x line :
  header_name line = None →
  extract_step x line =
    if truthy (current_section x)
    then {| sections := sections x; current_section := current_section x;
            current_content := current_content x ++ [line] |}
    else x.
Proof.
  unfold header_name, extract_step. by destruct (re_match header_re line).
Qed.

Lemma save_section_other x S :
  current_section x ≠ Some S → save_section x !! S = sections x !! S.
Proof.
  unfold save_section. intros Hc. destruct (current_section x) as [[|c n]|]; [done| |done].
  apply lookup_insert_ne. congruence.
Qed.

Lemma save_section_current x S :
  S ≠ [] → current_section x = Some S →
  save_section x !! S = Some (join_nl (current_content x)).
Proof.
  unfold save_section. intros HS ->. destruct S; [done|]. apply lookup_insert_eq.
Qed.

(** Lines without a header named [S] leave the entry of [S] as it is,
    once [S] is not the open section. *)
Lemma extract_untouched lines x S :
  (∀ l, l ∈ lines → header_name l ≠ Some S) →
  current_section x ≠ Some S →
  save_section (fold_left extract_step lines x) !! S = sections x !! S.
Proof.
  revert x. induction lines as [|l lines IH]; intros x Hl Hc; simpl.
  - by apply save_section_other.
  - assert (∀ l', l' ∈ lines → header_name l' ≠ Some S) as Hl' by (intros; apply Hl; by right).
    destruct (header_name l) as [T|] eqn:E.
    + rewrite (extract_step_header _ _ _ E), IH; [|done|].
      * by apply save_section_other.
      * cbn. intros [= ->]. by apply (Hl l); [left|].
    + rewrite (extract_step_body _ _ E). destruct (truthy (current_section x)); by rewrite IH.
Qed.

(** While [S] is the open section, with the lines [b] gathered so far,
    and no header named [S] follows, its entry at the end is [b] and
    the lines up to the next header. *)
Lemma extract_open lines x S :
  S ≠ [] → current_section x = Some S →
  (∀ l, l ∈ lines → header_name l ≠ Some S) →
  save_section (fold_left extract_step lines x) !! S =
    Some (join_nl (current_content x ++ body_lines lines)).
Proof.
  intros HS. revert x. induction lines as [|l lines IH]; intros x Hc Hl; simpl.
  - rewrite app_nil_r. by apply save_section_current.
  - assert (∀ l', l' ∈ lines → header_name l' ≠ Some S) as Hl' by (intros; apply Hl; by right).
    destruct (header_name l) as [T|] eqn:E.
    + rewrite (extract_step_header _ _ _ E), extract_untouched; [|done|].
      * cbn. rewrite app_nil_r. by apply save_section_current.
      * cbn. intros [= ->]. by apply (Hl l); [left|].
    + rewrite (extract_step_body _ _ E), Hc. destruct S; [done|]. cbn [truthy].
      rewrite IH by done. cbn. by rewrite <- app_assoc.
Qed.

Lemma extract_last_wins pre h post S :
  header_name h = Some S → S ≠ [] →
  (∀ l, l ∈ post → header_name l ≠ Some S) →
  extract_lines (pre ++ h :: post) !! S = Some (join_nl (body_lines post)).
Proof.
  intros Hh HS Hpost. unfold extract_lines. rewrite fold_left_app. simpl.
  rewrite (extract_step_header _ _ _ Hh). by rewrite extract_open.
Qed.

(** C1, as the script has it. When a heading occurs several times, the
    section map binds its name to the body of the last occurrence: the
    lines after it up to the next header, joined by newlines. In the
    text [## A\nx\n## A\ny\n] the last line is the empty line after the
    final newline, so that [A] is bound to [y\n]. *)
Theorem last_wins :
  (∀ content pre h post S,
     split_nl content = pre ++ h :: post →
     header_name h = Some S → S ≠ [] →
     (∀ l, l ∈ post → header_name l ≠ Some S) →
     _extract_sections content !! S = Some (join_nl (body_lines post))) ∧
  _extract_sections (py "## A\nx\n## A\ny\n") !! py "A" = Some (py "y\n").
Proof.
  split; [|by vm_compute].
  intros content pre h post S Hsplit Hh HS Hpost.
  change (_extract_sections content) with (extract_lines (split_nl content)).
  rewrite Hsplit. by apply extract_last_wins.
Qed.

Lemma last_wins_witness :
  _extract_sections (py "## A\nx\n## A\ny\nz\n## B\nw") !! py "A" =
    Some (join_nl (body_lines [py "y"; py "z"; py "## B"; py "w"])).
Proof.
  apply (proj1 last_wins (py "## A\nx\n## A\ny\nz\n## B\nw")
           [py "## A"; py "x"] (py "## A") [py "y"; py "z"; py "## B"; py "w"] (py "A")).
  - reflexivity.
  - by vm_compute.
  - discriminate.
  - apply Forall_forall. by apply (bool_decide_unpack _); vm_compute.
Defined.

(** The example of C1 as the specification words it fails: the body
    bound to [A] is not [y]. *)
Lemma last_wins_counterexample :
  _extract_sections (py "## A\nx\n## A\ny\n") !! py "A" ≠ Some (py "y").
Proof. by vm_compute. Qed.

(** ** The ownership check *)

(** C4, where the script departs from it. In [empty_ownership_doc] the
    heading of Ownership & Maintenance is there, the section is in the
    section map (it is not reported as missing), none of the four field
    labels occurs, and yet the check reports nothing: the pattern needs
    one character of body after the heading. In [nested_ownership_doc]
    the four labels stand between the heading and the next top-level
    heading, and the check reports all four as missing: the body it
    looks at ends before the subsection heading. *)
Theorem ownership_fields_divergence :
  (occurs (py "## Ownership & Maintenance") empty_ownership_doc ∧
   is_Some (_extract_sections empty_ownership_doc !! py "Ownership & Maintenance") ∧
   Forall (λ field, ¬ occurs (py "**" ++ field ++ py "**:") empty_ownership_doc)
     REQUIRED_OWNERSHIP_FIELDS ∧
   emits (_check_ownership_fields (py "helper.md") empty_ownership_doc) []) ∧
  (_extract_sections nested_ownership_doc !! py "Ownership & Maintenance" =
     Some (join_nl (py "Maintained by the platform team." :: contact_lines)) ∧
   Forall (λ field, occurs (py "**" ++ field ++ py "**:") (join_nl contact_lines))
     REQUIRED_OWNERSHIP_FIELDS ∧
   re_search ownership_re nested_ownership_doc =
     Some (nl :: join_nl (contact_lines ++ [ py "## Change Log"; py "- first version"; [] ]),
           Some (py "Maintained by the platform team.")) ∧
   emits (_check_ownership_fields (py "helper.md") nested_ownership_doc)
     (missing_ownership_field (py "helper.md") <$> REQUIRED_OWNERSHIP_FIELDS)).
Proof.
  split; [split_and!|].
  - by apply (bool_decide_unpack _); vm_compute.
  - eexists. by vm_compute.
  - by apply (bool_decide_unpack _); vm_compute.
  - assert (ownership_findings (py "helper.md") empty_ownership_doc = []) as <- by (by vm_compute).
    apply check_ownership_fields_emits.
  - split_and!.
    + by vm_compute.
    + by apply (bool_decide_unpack _); vm_compute.
    + by vm_compute.
    + assert (ownership_findings (py "helper.md") nested_ownership_doc =
              missing_ownership_field (py "helper.md") <$> REQUIRED_OWNERSHIP_FIELDS) as <-
        by (by vm_compute).
      apply check_ownership_fields_emits.
Qed.

(** ** Lines *)

Lemma join_nl_cons l ls : ls ≠ [] → join_nl (l :: ls) = l ++ nl :: join_nl ls.
Proof. by destruct ls. Qed.

Lemma join_nl_app ls1 ls2 :
  ls1 ≠ [] → ls2 ≠ [] → join_nl (ls1 ++ ls2) = join_nl ls1 ++ nl :: join_nl ls2.
Proof.
  intros H1 H2. induction ls1 as [|l ls1 IH]; [done|]. destruct ls1 as [|l' ls1].
  - simpl. by destruct ls2.
  - rewrite <- app_comm_cons, !join_nl_cons by done. rewrite IH by done.
    by rewrite <- app_assoc.
Qed.

Lemma join_nl_prefix ls1 ls2 : join_nl ls1 `prefix_of` join_nl (ls1 ++ ls2).
Proof.
  destruct ls1 as [|l ls1]; [by exists (join_nl ls2)|].
  destruct ls2 as [|l2 ls2]; [by rewrite app_nil_r|].
  rewrite join_nl_app by done. by eexists.
Qed.

Lemma split_on_nonempty sep s : split_on sep s ≠ [].
Proof.
  destruct s as [|c s]; [done|]. simpl. destruct (c =? sep); [done|].
  by destruct (split_on sep s).
Qed.

Lemma split_on_free sep s l : l ∈ split_on sep s → sep ∉ l.
Proof.
  revert l. induction s as [|c s IH]; intros l; simpl.
  - intros ->%list_elem_of_singleton. apply not_elem_of_nil.
  - destruct (N.eqb_spec c sep) as [->|Hne].
    + intros [->|H]%elem_of_cons; [apply not_elem_of_nil|by apply IH].
    + destruct (split_on sep s) as [|l0 ls] eqn:E; [by destruct (split_on_nonempty sep s)|].
      intros [->|H]%elem_of_cons.
      * intros [?|H]%elem_of_cons; [done|]. revert H. apply IH. left.
      * apply IH. by right.
Qed.

Lemma join_split s : join_nl (split_nl s) = s.
Proof.
  unfold split_nl. induction s as [|c s IH]; [done|]. simpl.
  destruct (N.eqb_spec c nl) as [->|Hne].
  - rewrite join_nl_cons by apply split_on_nonempty. by rewrite IH.
  - destruct (split_on nl s) as [|l ls] eqn:E; [by destruct (split_on_nonempty nl s)|].
    destruct ls as [|l' ls]; simpl in *; by rewrite <- IH.
Qed.

Lemma split_join ls :
  ls ≠ [] → Forall (λ l, nl ∉ l) ls → split_nl (join_nl ls) = ls.
Proof.
  unfold split_nl. intros Hne Hfree. induction Hfree as [|l ls Hl Hfree IH]; [done|].
  assert (∀ t, split_on nl (l ++ nl :: t) = l :: split_on nl t) as Hcons.
  { intros t. clear -Hl. induction l as [|c l IHl]; simpl.
    - done.
    - destruct (N.eqb_spec c nl) as [->|Hc]; [by destruct Hl; left|].
      rewrite IHl; [done|]. intros H. apply Hl. by right. }
  destruct ls as [|l' ls].
  - simpl. by apply split_on_absent.
  - rewrite join_nl_cons, Hcons, IH by done. done.
Qed.

(** ** Removing a heading *)

Lemma below_insert S m1 m2 T v : below S m1 m2 → below S (<[T := v]> m1) (<[T := v]> m2).
Proof.
  intros H T' v1 Hne. destruct (decide (T = T')) as [->|Hd].
  - rewrite !lookup_insert_eq. intros [= <-]. by exists v.
  - rewrite !lookup_insert_ne by done. by apply H.
Qed.

(** From two states that differ in their maps only, the same lines. *)
Lemma below_run S lines m1 m2 c b :
  below S m1 m2 →
  below S
    (save_section (fold_left extract_step lines
       {| sections := m1; current_section := c; current_content := b |}))
    (save_section (fold_left extract_step lines
       {| sections := m2; current_section := c; current_content := b |})).
Proof.
  assert (∀ m1 m2 c b, below S m1 m2 →
            below S (save_section {| sections := m1; current_section := c; current_content := b |})
                    (save_section {| sections := m2; current_section := c; current_content := b |}))
    as Hsave.
  { intros m1' m2' c' b' H. unfold save_section; cbn.
    destruct c' as [[|x n]|]; [done| |done]. by apply below_insert. }
  revert m1 m2 c b. induction lines as [|l lines IH]; intros m1 m2 c b H; simpl.
  - by apply Hsave.
  - destruct (header_name l) as [T|] eqn:E.
    + rewrite !(extract_step_header _ _ _ E). apply IH. by apply Hsave.
    + rewrite !(extract_step_body _ _ E). cbn. destruct (truthy c); by apply IH.
Qed.

(** The lines after a removed header of [S]: with the header they go to
    [S], without it to the section that was open before. *)
Lemma below_removed S lines m0 c0 b0 b :
  S ≠ [] →
  below S
    (save_section (fold_left extract_step lines
       {| sections := save_section {| sections := m0; current_section := c0;
                                      current_content := b0 |};
          current_section := Some S; current_content := b |}))
    (save_section (fold_left extract_step lines
       {| sections := m0; current_section := c0;
          current_content := if truthy c0 then b0 ++ b else b0 |})).
Proof.
  intros HS.
  assert (∀ b, below S
     (save_section {| sections := save_section {| sections := m0; current_section := c0;
                                                  current_content := b0 |};
                      current_section := Some S; current_content := b |})
     (save_section {| sections := m0; current_section := c0;
                      current_content := if truthy c0 then b0 ++ b else b0 |})) as Hsave.
  { intros b' T v1 Hne. unfold save_section at 1. cbn. destruct S as [|x n]; [done|].
    rewrite lookup_insert_ne by done. unfold save_section; cbn.
    destruct c0 as [[|y k]|]; cbn; [by eexists|  |by eexists].
    destruct (decide (y :: k = T)) as [<-|Hd].
    - rewrite !lookup_insert_eq. intros [= <-]. eexists. split; [done|]. apply join_nl_prefix.
    - rewrite !lookup_insert_ne by done. by eexists. }
  revert b. induction lines as [|l lines IH]; intros b; simpl.
  - apply Hsave.
  - destruct (header_name l) as [T|] eqn:E.
    + rewrite !(extract_step_header _ _ _ E). apply below_run, Hsave.
    + rewrite !(extract_step_body _ _ E). destruct S as [|x n]; [done|]. cbn.
      specialize (IH (b ++ [l])). destruct (truthy c0); cbn.
      * rewrite <- app_assoc. exact IH.
      * exact IH.
Qed.

Lemma extract_lines_absent lines S :
  (∀ l, l ∈ lines → header_name l ≠ Some S) → extract_lines lines !! S = None.
Proof. intros H. unfold extract_lines. by rewrite extract_untouched. Qed.

Lemma extract_lines_removed pre h post S :
  header_name h = Some S → S ≠ [] →
  below S (extract_lines (pre ++ h :: post)) (extract_lines (pre ++ post)).
Proof.
  intros Hh HS. unfold extract_lines. rewrite !fold_left_app. simpl.
  rewrite (extract_step_header _ _ _ Hh).
  destruct (fold_left extract_step pre extract_init) as [m0 c0 b0].
  pose proof (below_removed S post m0 c0 b0 [] HS) as H.
  rewrite app_nil_r in H. by destruct (truthy c0).
Qed.

(** An occurrence of [w] in a text around a character that [w] does not
    hold lies before that character or after it. *)
Lemma occurs_before_sep (w b X : str) (c : N) (Y : str) :
  c ∉ w → w ++ b = X ++ c :: Y → ∃ b', X = w ++ b'.
Proof.
  intros Hc. revert X. induction w as [|x w IH]; intros X E; [by exists X|].
  destruct X as [|x' X]; simpl in E.
  - injection E as -> _. destruct Hc. left.
  - injection E as <- E. destruct (IH ltac:(intros H; apply Hc; by right) X E) as [b' ->].
    by exists b'.
Qed.

Lemma occurs_sep (a w b X : str) (c : N) (Y : str) :
  c ∉ w → a ++ w ++ b = X ++ c :: Y →
  (∃ b', X = a ++ w ++ b') ∨ (∃ a', a = X ++ c :: a' ∧ Y = a' ++ w ++ b).
Proof.
  intros Hc. revert a. induction X as [|x X IH]; intros a E.
  - destruct a as [|y a]; simpl in E.
    + left. destruct (occurs_before_sep w b [] c Y Hc E) as [b' Hb]. by exists b'.
    + injection E as -> E. right. by exists a.
  - destruct a as [|y a]; simpl in E.
    + left. destruct (occurs_before_sep w b (x :: X) c Y Hc E) as [b' Hb]. by exists b'.
    + injection E as -> E. destruct (IH a E) as [[b' ->]|(a' & -> & ->)].
      * left. by exists b'.
      * right. by exists a'.
Qed.

(** Occurrences in a prefix of the text. *)
Lemma occurs_take (w : str) (k : nat) (s : str) :
  occurs w (take k s) ↔ ∃ a b, s = a ++ w ++ b ∧ (length a + length w ≤ k)%nat.
Proof.
  split.
  - intros (a & b & E). exists a, (b ++ drop k s). split.
    + rewrite <- (take_drop k s) at 1. rewrite E. by rewrite <- !app_assoc.
    + apply (f_equal length) in E. rewrite length_take, !length_app in E. lia.
  - intros (a & b & -> & Hk). exists a, (take (k - length a - length w) b).
    rewrite take_app_ge by lia. rewrite take_app_ge by lia. done.
Qed.

(** Removing a whole line keeps the occurrences, in a prefix of the text,
    of a word that has no newline and does not occur in that line. *)
Lemma occurs_take_removed (w : str) (k : nat) (pre : list str) (h : str) (post : list str) :
  nl ∉ w → ¬ occurs w h →
  occurs w (take k (join_nl (pre ++ h :: post))) →
  occurs w (take k (join_nl (pre ++ post))).
Proof.
  intros Hnl Hh. rewrite !occurs_take. intros (a & b & E & Hk).
  destruct pre as [|p pre], post as [|q post].
  - destruct Hh. exists a, b. by rewrite <- E.
  - simpl app in *. rewrite join_nl_cons in E by done. symmetry in E.
    destruct (occurs_sep _ _ _ _ _ _ Hnl E) as [[b' ->]|(a' & -> & E')].
    + destruct Hh. by exists a, b'.
    + exists a', b. split; [done|]. rewrite length_app in Hk. simpl in Hk. lia.
  - rewrite app_nil_r. rewrite join_nl_app in E by done. symmetry in E.
    destruct (occurs_sep _ _ _ _ _ _ Hnl E) as [[b' E']|(a' & -> & E')].
    + by exists a, b'.
    + destruct Hh. simpl in E'. by exists a', b.
  - rewrite join_nl_app in E by done. rewrite (join_nl_cons h) in E by done.
    rewrite join_nl_app by done. symmetry in E.
    destruct (occurs_sep _ _ _ _ _ _ Hnl E) as [[b' E']|(a' & -> & E')].
    + exists a, (b' ++ nl :: join_nl (q :: post)). split; [|done].
      rewrite E'. by rewrite <- !app_assoc.
    + symmetry in E'.
      destruct (occurs_sep _ _ _ _ _ _ Hnl E') as [[b' ->]|(a'' & -> & E'')].
      * destruct Hh. by exists a', b'.
      * exists (join_nl (p :: pre) ++ nl :: a''), b. split.
        -- rewrite E''. by rewrite <- app_assoc.
        -- revert Hk. rewrite !length_app. simpl. rewrite !length_app. simpl. lia.
Qed.

(** The characters of a header line: heading markers, whitespace and
    the characters of the name. *)
Lemma lstrip_elem (c : N) (s : str) : c ∈ s → isspace c = true ∨ c ∈ lstrip s.
Proof.
  induction s as [|x s IH]; [by intros ?%not_elem_of_nil|].
  simpl. destruct (isspace x) eqn:Hx.
  - intros [->|H]%elem_of_cons; [by left|by apply IH].
  - by right.
Qed.

Lemma strip_elem (c : N) (s : str) : c ∈ s → isspace c = true ∨ c ∈ strip s.
Proof.
  intros [Hc|Hc]%lstrip_elem; [by left|]. unfold strip, rstrip.
  apply elem_of_reverse, lstrip_elem in Hc as [Hc|Hc]; [by left|].
  right. by apply elem_of_reverse.
Qed.

Lemma header_name_chars (h S : str) (c : N) :
  nl ∉ h → header_name h = Some S → c ∈ h → c = 35 ∨ isspace c = true ∨ c ∈ S.
Proof.
  intros Hnl Hh. unfold header_name in Hh.
  destruct (re_match header_re h) as [m|] eqn:E; [|done]. injection Hh as <-.
  apply header_match in E as (ws & title & -> & _ & Hws & _ & _ & ->); [|done].
  change (py "##") with [35; 35]. rewrite !elem_of_app.
  intros [Hc|[Hc|Hc]].
  - left. apply elem_of_cons in Hc as [->|Hc]; [done|]. by apply list_elem_of_singleton in Hc.
  - right. left. by eapply Forall_forall in Hws.
  - right. by apply strip_elem.
Qed.

Lemma filter_eq_nil {A} (P : A → Prop) `{∀ x, Decision (P x)} (l : list A) :
  filter P l = [] ↔ ∀ x, x ∈ l → ¬ P x.
Proof.
  induction l as [|y l IH]; [by split; [intros _ x ?%not_elem_of_nil|]|].
  rewrite filter_cons. destruct (decide (P y)) as [Hy|Hy].
  - split; [done|]. intros Hall. destruct (Hall y); [left|done].
  - rewrite IH. split.
    + intros Hall x [->|Hx]%elem_of_cons; [done|by apply Hall].
    + intros Hall x Hx. apply Hall. by right.
Qed.

Lemma filter_eq_singleton {A} (P : A → Prop) `{∀ x, Decision (P x)} (l : list A) (a : A) :
  NoDup l → a ∈ l → (∀ x, x ∈ l → P x ↔ x = a) → filter P l = [a].
Proof.
  induction 1 as [|y l Hy Hnd IH]; [by intros ?%not_elem_of_nil|].
  intros Ha HP. rewrite filter_cons. destruct (decide (P y)) as [Hpy|Hpy].
  - apply HP in Hpy as ->; [|left]. f_equal. apply filter_eq_nil.
    intros x Hx Hpx. apply HP in Hpx as ->; [done|by right].
  - apply elem_of_cons in Ha as [->|Ha]; [destruct Hpy; apply HP; [left|done]|].
    apply IH; [done|]. intros x Hx. apply HP. by right.
Qed.

Lemma fmap_eq_nil {A B} (g : A → B) (l : list A) : g <$> l = [] ↔ l = [].
Proof. split; [apply fmap_nil_inv|by intros ->]. Qed.

Lemma sections_findings_nil f m :
  sections_findings f m = [] ↔ ∀ rs, rs ∈ REQUIRED_SECTIONS → is_Some (m !! rs).
Proof.
  unfold sections_findings. rewrite fmap_eq_nil, filter_eq_nil.
  by setoid_rewrite not_eq_None_Some.
Qed.

Lemma subsections_findings_nil f m :
  subsections_findings f m = [] ↔
  ∀ section subs body sub,
    (section, subs) ∈ REQUIRED_SUBSECTIONS → m !! section = Some body → sub ∈ subs →
    occurs (py "### " ++ sub) body.
Proof.
  unfold subsections_findings. rewrite concat_nil_Forall, Forall_fmap, Forall_forall. split.
  - intros Hall section subs body sub Hin Hm Hsub. specialize (Hall _ Hin).
    cbn in Hall. rewrite Hm in Hall. apply fmap_nil_inv in Hall. rewrite filter_eq_nil in Hall.
    apply str_in_spec. specialize (Hall sub Hsub).
    by destruct (str_in (py "### " ++ sub) body).
  - intros Hall [section subs] Hin. cbn.
    destruct (m !! section) as [body|] eqn:Hm; [|done].
    apply fmap_eq_nil, filter_eq_nil. intros sub Hsub Hf.
    apply (Hall _ _ _ _ Hin Hm), str_in_spec in Hsub. congruence.
Qed.

Lemma required_sections_facts :
  NoDup REQUIRED_SECTIONS ∧
  Forall (λ S, S ≠ [] ∧ 42 ∉ S) REQUIRED_SECTIONS ∧
  Forall (λ p, p.1 ∈ REQUIRED_SECTIONS) REQUIRED_SUBSECTIONS.
Proof. split_and!; by apply (bool_decide_unpack _); vm_compute. Qed.

Lemma extract_sections_lines content : _extract_sections content = extract_lines (split_nl content).
Proof. reflexivity. Qed.

Lemma extract_sections_join ls :
  Forall (λ l, nl ∉ l) ls → _extract_sections (join_nl ls) = extract_lines ls.
Proof.
  intros Hfree. rewrite extract_sections_lines. destruct ls as [|l ls]; [done|].
  by rewrite split_join.
Qed.

(** The section map and the findings of its two checks, once the only
    header of a required section [S] is removed from a text whose map
    has every required section and every required subsection. *)
Lemma sections_removed f pre h post S :
  header_name h = Some S → S ∈ REQUIRED_SECTIONS →
  (∀ l, l ∈ pre ++ post → header_name l ≠ Some S) →
  sections_findings f (extract_lines (pre ++ h :: post)) = [] →
  subsections_findings f (extract_lines (pre ++ h :: post)) = [] →
  sections_findings f (extract_lines (pre ++ post)) = [missing_section f S] ∧
  subsections_findings f (extract_lines (pre ++ post)) = [].
Proof.
  intros Hh HS Hothers Hsec Hsub.
  destruct required_sections_facts as (Hnd & Hchars & Hkeys).
  assert (S ≠ []) as HSne by (by eapply Forall_forall in Hchars as [? _]).
  pose proof (extract_lines_removed pre h post S Hh HSne) as Hbelow.
  pose proof (extract_lines_absent _ _ Hothers) as Habsent.
  rewrite sections_findings_nil in Hsec.
  assert (∀ T, T ∈ REQUIRED_SECTIONS → T ≠ S →
            ∃ v1 v2, extract_lines (pre ++ h :: post) !! T = Some v1 ∧
                     extract_lines (pre ++ post) !! T = Some v2 ∧ v1 `prefix_of` v2) as Hkept.
  { intros T HT Hne. destruct (Hsec T HT) as [v1 Hv1].
    destruct (Hbelow T v1 Hne Hv1) as (v2 & Hv2 & Hp). by exists v1, v2. }
  split.
  - unfold sections_findings. f_equal.
    rewrite (filter_eq_singleton _ _ S); [done..|].
    intros T HT. split.
    + intros Hnone. destruct (decide (T = S)) as [|Hne]; [done|].
      destruct (Hkept T HT Hne) as (v1 & v2 & _ & Hv2 & _). congruence.
    + by intros ->.
  - rewrite subsections_findings_nil in Hsub. apply subsections_findings_nil.
    intros section subs body sub Hin Hm Hs.
    assert (section ∈ REQUIRED_SECTIONS) as HT
      by (by eapply Forall_forall in Hkeys; [|exact Hin]).
    assert (section ≠ S) as Hne by (intros ->; congruence).
    destruct (Hkept section HT Hne) as (v1 & v2 & Hv1 & Hv2 & [k Hp]).
    assert (v2 = body) as -> by congruence. rewrite Hp. apply occurs_app_l.
    by eapply Hsub.
Qed.

Lemma role_removed f pre h post S :
  Forall (λ l, nl ∉ l) (pre ++ h :: post) →
  header_name h = Some S → S ∈ REQUIRED_SECTIONS →
  role_findings f (join_nl (pre ++ h :: post)) = [] →
  role_findings f (join_nl (pre ++ post)) = [].
Proof.
  intros Hfree Hh HS. unfold role_findings.
  destruct (decide (occurs _ (take 500 (join_nl (pre ++ h :: post))))) as [Ho|]; [|done].
  intros _. rewrite decide_True; [done|].
  apply (occurs_take_removed _ _ pre h post); [by apply (bool_decide_unpack _)| |done].
  intros (a & b & E).
  assert (42 ∈ h) as Hstar by (rewrite E, !elem_of_app; right; left; left).
  apply Forall_app in Hfree as [_ [Hnl _]%Forall_cons].
  destruct required_sections_facts as (_ & Hchars & _).
  eapply Forall_forall in Hchars as [_ Hno]; [|exact HS].
  by destruct (header_name_chars h S 42 Hnl Hh Hstar) as [?|[?|?]].
Qed.

(** The findings of a conforming document without the only heading line
    of a required section, check by check. *)
Lemma heading_removed_findings (f content : str) (pre : list str) (h : str) (post : list str)
    (S : str) :
  split_nl content = pre ++ h :: post →
  header_name h = Some S →
  S ∈ REQUIRED_SECTIONS →
  (∀ l, l ∈ pre ++ post → header_name l ≠ Some S) →
  file_findings {| name := f; read_text := inr content |} = [] →
  sections_findings f (_extract_sections (join_nl (pre ++ post))) = [missing_section f S] ∧
  subsections_findings f (_extract_sections (join_nl (pre ++ post))) = [] ∧
  role_findings f (join_nl (pre ++ post)) = [] ∧
  file_findings {| name := f; read_text := inr (join_nl (pre ++ post)) |} =
    missing_section f S ::
    ownership_findings f (join_nl (pre ++ post)) ++
    telemetry_findings f (join_nl (pre ++ post)).
Proof.
  intros Hsplit Hh HS Hothers Hconf.
  rewrite file_findings_eq in Hconf. cbn [read_text name] in Hconf.
  unfold content_findings in Hconf.
  apply app_eq_nil in Hconf as [Hsec Hconf]. apply app_eq_nil in Hconf as [Hsub Hconf].
  apply app_eq_nil in Hconf as [_ Hconf]. apply app_eq_nil in Hconf as [Hrole _].
  assert (Forall (λ l, nl ∉ l) (pre ++ h :: post)) as Hfree.
  { rewrite <- Hsplit. apply Forall_forall. intros l. apply split_on_free. }
  assert (Forall (λ l, nl ∉ l) (pre ++ post)) as Hfree'.
  { apply Forall_app in Hfree as [? [_ ?]%Forall_cons]. by apply Forall_app. }
  assert (content = join_nl (pre ++ h :: post)) as -> by (by rewrite <- Hsplit, join_split).
  rewrite extract_sections_join in Hsec, Hsub by done.
  destruct (sections_removed f pre h post S Hh HS Hothers Hsec Hsub) as [Hsec' Hsub'].
  pose proof (role_removed f pre h post S Hfree Hh HS Hrole) as Hrole'.
  rewrite extract_sections_join by done.
  split_and!; [done..|].
  rewrite file_findings_eq. cbn [read_text name]. unfold content_findings.
  rewrite extract_sections_join by done. by rewrite Hsec', Hsub', Hrole'.
Qed.

(** C9, as the script has it. Take a document without findings and a
    required section [S] that one line, and no other, declares. Without
    that line the required-sections check reports the MISSING_SECTION
    finding of [S] and nothing else, the subsections check and the Role
    check report nothing; all the findings of the document are that one,
    followed by what the ownership check and the telemetry check, which
    both search the whole text again, report on the new text. *)
Theorem heading_removed (f content : str) (pre : list str) (h : str) (post : list str)
    (S : str) :
  split_nl content = pre ++ h :: post →
  header_name h = Some S →
  S ∈ REQUIRED_SECTIONS →
  (∀ l, l ∈ pre ++ post → header_name l ≠ Some S) →
  file_findings {| name := f; read_text := inr content |} = [] →
  emits (_check_required_sections f (_extract_sections (join_nl (pre ++ post))))
        [missing_section f S] ∧
  emits (_check_required_subsections f (join_nl (pre ++ post))
           (_extract_sections (join_nl (pre ++ post)))) [] ∧
  emits (_check_role_field f (join_nl (pre ++ post))) [] ∧
  ∃ own tel,
    emits (_check_ownership_fields f (join_nl (pre ++ post))) own ∧
    emits (_check_telemetry_events f (join_nl (pre ++ post))) tel ∧
    file_findings {| name := f; read_text := inr (join_nl (pre ++ post)) |} =
      missing_section f S :: own ++ tel.
Proof.
  intros Hsplit Hh HS Hothers Hconf.
  destruct (heading_removed_findings f content pre h post S Hsplit Hh HS Hothers Hconf)
    as (Hsec & Hsub & Hrole & Hall).
  split_and!.
  - rewrite <- Hsec. apply check_required_sections_emits.
  - rewrite <- Hsub. apply check_required_subsections_emits.
  - rewrite <- Hrole. apply check_role_field_emits.
  - exists (ownership_findings f (join_nl (pre ++ post))),
           (telemetry_findings f (join_nl (pre ++ post))).
    split_and!; [apply check_ownership_fields_emits|apply check_telemetry_events_emits|done].
Qed.

Lemma heading_removed_witness :
  file_findings
    {| name := py "myagent.md";
       read_text := inr (join_nl (head_lines ++ telemetry_lines ++ middle_lines ++
                                  ownership_lines ++ [ py "- v1" ])) |} =
    [missing_section (py "myagent.md") (py "Change Log")].
Proof.
  destruct (heading_removed (py "myagent.md") (join_nl conforming_lines)
              (head_lines ++ telemetry_lines ++ middle_lines ++ ownership_lines)
              (py "## Change Log") [py "- v1"] (py "Change Log"))
    as (_ & _ & _ & own & tel & Hown & Htel & H).
  - by vm_compute.
  - by vm_compute.
  - by apply (bool_decide_unpack _); vm_compute.
  - apply Forall_forall. by apply (bool_decide_unpack _); vm_compute.
  - by vm_compute.
  - rewrite <- !app_assoc in H. rewrite H.
    rewrite (emits_inj _ _ _ Hown (check_ownership_fields_emits _ _)).
    rewrite (emits_inj _ _ _ Htel (check_telemetry_events_emits _ _)).
    by vm_compute.
Defined.

(** The claim C9 as the specification words it fails. With the Change
    Log heading twice the document has no finding, and without the
    second of the two headings it still has none: the section is not
    reported as missing. With an Events to Track subsection that names
    no event, removing the heading of the next section brings a
    TELEMETRY_NAMING finding, which does not depend on the removed
    section. *)
Lemma heading_removed_counterexample :
  (file_findings {| name := py "myagent.md";
                    read_text := inr (join_nl (twice_lines [py "## Change Log"])) |} = [] ∧
   file_findings {| name := py "myagent.md";
                    read_text := inr (join_nl (twice_lines [])) |} = []) ∧
  (file_findings {| name := py "myagent.md";
                    read_text := inr (join_nl (silent_events_lines
                                                 [py "## Safety & Security"])) |} = [] ∧
   file_findings {| name := py "myagent.md";
                    read_text := inr (join_nl (silent_events_lines [])) |} =
     [ missing_section (py "myagent.md") (py "Safety & Security");
       telemetry_naming (py "myagent.md") ]).
Proof. split_and!; by vm_compute. Qed.

(** The ownership check also searches the whole text again: without
    the heading of Ownership & Maintenance it finds the same words in a
    later subsection heading and reports the four fields, which stand
    above it, as missing. *)
Example ownership_words_again :
  file_findings {| name := py "myagent.md";
                   read_text := inr (join_nl (ownership_note_lines
                                                [py "## Ownership & Maintenance"])) |} = [] ∧
  file_findings {| name := py "myagent.md";
                   read_text := inr (join_nl (ownership_note_lines [])) |} =
    missing_section (py "myagent.md") (py "Ownership & Maintenance") ::
    (missing_ownership_field (py "myagent.md") <$> REQUIRED_OWNERSHIP_FIELDS).
Proof. split; by vm_compute. Qed.

(** The conforming document of the specification has no finding, and
    exits with 0. *)
Example conforming_document :
  file_findings {| name := py "myagent.md"; read_text := inr (join_nl conforming_lines) |} = [] ∧
  exit_code (py "/repo")
    {| dir_path := py "/repo/docs/agents";
       dir_entries := Some [ {| name := py "myagent.md";
                                read_text := inr (join_nl conforming_lines) |};
                             {| name := py "TEMPLATE.md"; read_text := inr [] |} ] |} = 0%Z.
Proof. split; by vm_compute. Qed.

(** * Further properties of the script *)

(** ** What the section map holds *)

Lemma last_occurrence {A} (P : A → Prop) `{∀ x, Decision (P x)} (l : list A) :
  (∃ x, x ∈ l ∧ P x) →
  ∃ pre h post, l = pre ++ h :: post ∧ P h ∧ ∀ x, x ∈ post → ¬ P x.
Proof.
  induction l as [|a l IH]; [by intros (x & ?%not_elem_of_nil & _)|].
  intros (x & Hx & Hp). destruct (decide (Exists P l)) as [He|He].
  - apply Exists_exists in He. destruct (IH He) as (pre & h & post & -> & Hh & Hpost).
    by exists (a :: pre), h, post.
  - exists [], a, l. split; [done|]. rewrite Exists_exists in He. split.
    + apply elem_of_cons in Hx as [<-|Hx]; [done|]. destruct He. eauto.
    + intros y Hy Hpy. apply He. eauto.
Qed.

Lemma save_section_nil x : save_section x !! [] = sections x !! [].
Proof.
  unfold save_section. destruct (current_section x) as [[|c n]|]; [done| |done].
  by rewrite lookup_insert_ne.
Qed.

(** The empty name is never a key. *)
Lemma extract_no_empty_key lines x :
  sections x !! [] = None → save_section (fold_left extract_step lines x) !! [] = None.
Proof.
  revert x. induction lines as [|l lines IH]; intros x Hx; simpl.
  - by rewrite save_section_nil.
  - apply IH. destruct (header_name l) as [T|] eqn:E.
    + rewrite (extract_step_header _ _ _ E). cbn. by rewrite save_section_nil.
    + rewrite (extract_step_body _ _ E). by destruct (truthy (current_section x)).
Qed.

Lemma extract_lines_dom lines S :
  is_Some (extract_lines lines !! S) ↔
  S ≠ [] ∧ ∃ l, l ∈ lines ∧ header_name l = Some S.
Proof.
  split.
  - intros Hs. split.
    + intros ->. unfold extract_lines in Hs. rewrite extract_no_empty_key in Hs by done.
      by destruct Hs.
    + destruct (decide (Exists (λ l, header_name l = Some S) lines)) as [He|He].
      * by apply Exists_exists in He.
      * rewrite extract_lines_absent in Hs; [by destruct Hs|].
        intros l Hl E. apply He, Exists_exists. eauto.
  - intros [HS Hex].
    destruct (last_occurrence (λ l, header_name l = Some S) lines Hex)
      as (pre & h & post & -> & Hh & Hpost).
    by rewrite (extract_last_wins _ _ _ _ Hh HS Hpost).
Qed.

Lemma body_lines_spec lines l : l ∈ body_lines lines → l ∈ lines ∧ header_name l = None.
Proof.
  induction lines as [|x lines IH]; simpl; [by intros ?%not_elem_of_nil|].
  destruct (header_name x) eqn:E; [by intros ?%not_elem_of_nil|].
  intros [->|Hl]%elem_of_cons.
  - split; [left|done].
  - destruct (IH Hl). split; [by right|done].
Qed.

(** X1. The keys of the section map are the names, other than the empty
    one, that the header lines of the text declare. *)
Theorem section_map_keys (content S : str) :
  is_Some (_extract_sections content !! S) ↔
  S ≠ [] ∧ ∃ line, line ∈ split_nl content ∧ header_name line = Some S.
Proof. rewrite extract_sections_lines. apply extract_lines_dom. Qed.

Lemma section_map_keys_witness :
  is_Some (_extract_sections (py "intro\n## Overview \ntext\n### Sub\n") !! py "Overview") ∧
  ¬ is_Some (_extract_sections (py "intro\n## Overview \ntext\n### Sub\n") !! py "Sub").
Proof.
  split.
  - apply (proj2 (section_map_keys _ _)). split; [done|].
    exists (py "## Overview "). split; [|by vm_compute].
    by apply (bool_decide_unpack _); vm_compute.
  - intros Hs. apply (proj1 (section_map_keys _ _)) in Hs as [_ (line & Hl & Hh)].
    revert line Hl Hh.
    apply (proj1 (Forall_forall (λ line, header_name line ≠ Some (py "Sub")) _)).
    by apply (bool_decide_unpack _); vm_compute.
Defined.

(** X2. Every entry of the section map comes from a header line: the
    last one that declares the name; the body is the lines after it up
    to the next header line, joined by newlines, and no line of a body
    is a header line. *)
Theorem section_map_entries (content S body : str) :
  _extract_sections content !! S = Some body →
  ∃ pre h post,
    split_nl content = pre ++ h :: post ∧
    header_name h = Some S ∧
    (∀ l, l ∈ post → header_name l ≠ Some S) ∧
    body = join_nl (body_lines post) ∧
    ∀ l, l ∈ split_nl body → header_name l = None.
Proof.
  intros Hb. assert (is_Some (_extract_sections content !! S)) as Hs by eauto.
  rewrite extract_sections_lines in Hb, Hs.
  apply extract_lines_dom in Hs as [HS Hex].
  destruct (last_occurrence (λ l, header_name l = Some S) _ Hex)
    as (pre & h & post & Hsplit & Hh & Hpost).
  exists pre, h, post. rewrite Hsplit in Hb.
  rewrite (extract_last_wins _ _ _ _ Hh HS Hpost) in Hb. injection Hb as <-.
  split_and!; [done..|].
  destruct (body_lines post) as [|b bs] eqn:Eb.
  - intros l ->%list_elem_of_singleton. done.
  - rewrite split_join; [|done|].
    + intros l Hl. rewrite <- Eb in Hl. by apply body_lines_spec in Hl as [_ ?].
    + apply Forall_forall. intros l Hl. rewrite <- Eb in Hl.
      apply body_lines_spec in Hl as [Hl _]. apply (split_on_free nl content).
      unfold split_nl in Hsplit. rewrite Hsplit, elem_of_app. right. by right.
Qed.

Lemma section_map_entries_witness :
  ∃ pre h post,
    split_nl (py "## A\nx\n## B\n## A\ny\nz") = pre ++ h :: post ∧
    py "y\nz" = join_nl (body_lines post).
Proof.
  destruct (section_map_entries (py "## A\nx\n## B\n## A\ny\nz") (py "A") (py "y\nz"))
    as (pre & h & post & H1 & _ & _ & H2 & _); [by vm_compute|].
  by exists pre, h, post.
Defined.

(** X3. The lines before the first header line belong to no section:
    the section map is that of the text from the first header on, and a
    text without header line, the empty text among them, has the empty
    map. *)
Theorem preamble_ignored (content : str) (pre rest : list str) :
  split_nl content = pre ++ rest →
  (∀ l, l ∈ pre → header_name l = None) →
  _extract_sections content = extract_lines rest ∧
  (rest = [] → _extract_sections content = ∅).
Proof.
  intros Hsplit Hpre.
  assert (_extract_sections content = extract_lines rest) as Heq.
  { rewrite extract_sections_lines, Hsplit. unfold extract_lines. rewrite fold_left_app.
    f_equal. f_equal. clear Hsplit. induction pre as [|l pre IH]; [done|]. simpl.
    rewrite extract_step_body by (apply Hpre; left). cbn.
    apply IH. intros l' Hl'. apply Hpre. by right. }
  split; [done|]. intros ->. by rewrite Heq.
Qed.

Lemma preamble_ignored_witness :
  _extract_sections (py "# Title\n**Role**: helper\n## A\nx") = extract_lines [py "## A"; py "x"].
Proof.
  apply (preamble_ignored (py "# Title\n**Role**: helper\n## A\nx")
           [py "# Title"; py "**Role**: helper"] [py "## A"; py "x"]).
  - reflexivity.
  - apply Forall_forall. by apply (bool_decide_unpack _); vm_compute.
Defined.

(** ** What the checks report *)

Lemma sections_findings_kind f m e :
  e ∈ sections_findings f m → error_type e = py "MISSING_SECTION".
Proof. by intros (? & -> & _)%list_elem_of_fmap. Qed.

Lemma subsections_findings_elem f m e :
  e ∈ subsections_findings f m ↔
  ∃ section subs body sub,
    (section, subs) ∈ REQUIRED_SUBSECTIONS ∧ m !! section = Some body ∧ sub ∈ subs ∧
    ¬ occurs (py "### " ++ sub) body ∧ e = missing_subsection f section sub.
Proof.
  unfold subsections_findings. rewrite elem_of_concat. split.
  - intros (l & Hl & He). apply list_elem_of_fmap in Hl as ([section subs] & -> & Hin).
    destruct (m !! section) as [body|] eqn:Hm; [|by apply not_elem_of_nil in He].
    apply list_elem_of_fmap in He as (sub & -> & [Hf Hsub]%list_elem_of_filter).
    exists section, subs, body, sub. split_and!; [done..| |done].
    rewrite <- str_in_spec. congruence.
  - intros (section & subs & body & sub & Hin & Hm & Hsub & Hn & ->).
    eexists. split; [apply list_elem_of_fmap; by exists (section, subs)|].
    cbn. rewrite Hm. apply list_elem_of_fmap_2, list_elem_of_filter. split; [|done].
    rewrite <- str_in_spec in Hn. by destruct (str_in (py "### " ++ sub) body).
Qed.

Lemma subsections_findings_kind f m e :
  e ∈ subsections_findings f m → error_type e = py "MISSING_SUBSECTION".
Proof. by intros (? & ? & ? & ? & _ & _ & _ & _ & ->)%subsections_findings_elem. Qed.

Lemma ownership_findings_kind f content e :
  e ∈ ownership_findings f content → error_type e = py "MISSING_FIELD".
Proof.
  unfold ownership_findings. destruct (re_search ownership_re content);
    [|by intros ?%not_elem_of_nil].
  by intros (? & -> & _)%list_elem_of_fmap.
Qed.

Lemma role_findings_kind f content e :
  e ∈ role_findings f content → error_type e = py "MISSING_FIELD".
Proof.
  unfold role_findings. case_decide; [by intros ?%not_elem_of_nil|].
  by intros ->%list_elem_of_singleton.
Qed.

Lemma telemetry_findings_kind f content e :
  e ∈ telemetry_findings f content → error_type e = py "TELEMETRY_NAMING".
Proof.
  unfold telemetry_findings. destruct (re_search events_re content);
    [|by intros ?%not_elem_of_nil].
  cbv zeta. case_decide; [|by intros ?%not_elem_of_nil].
  by intros ->%list_elem_of_singleton.
Qed.

Lemma missing_section_inj f S T : missing_section f S = missing_section f T → S = T.
Proof.
  intros [= E]. by apply app_inv_tail in E.
Qed.

(** X4. A required section is reported as missing exactly when no line
    of the text is a header that declares it. *)
Theorem missing_section_reported (f content S : str) :
  S ∈ REQUIRED_SECTIONS →
  missing_section f S ∈ file_findings {| name := f; read_text := inr content |} ↔
  ∀ line, line ∈ split_nl content → header_name line ≠ Some S.
Proof.
  intros HS. rewrite file_findings_eq. cbn [read_text name]. unfold content_findings.
  destruct required_sections_facts as (_ & Hchars & _).
  assert (S ≠ []) as HSne by (by eapply Forall_forall in Hchars as [? _]).
  assert (_extract_sections content !! S = None ↔
          ∀ line, line ∈ split_nl content → header_name line ≠ Some S) as Hnone.
  { rewrite eq_None_not_Some, extract_sections_lines, extract_lines_dom. split.
    - intros Hn line Hl Hh. apply Hn. eauto.
    - intros Hn [_ (line & Hl & Hh)]. by apply (Hn line). }
  rewrite <- Hnone, !elem_of_app. split.
  - intros [H|[H|[H|[H|H]]]].
    + apply list_elem_of_fmap in H as (T & ->%missing_section_inj & [HT _]%list_elem_of_filter).
      done.
    + by apply subsections_findings_kind in H.
    + by apply ownership_findings_kind in H.
    + by apply role_findings_kind in H.
    + by apply telemetry_findings_kind in H.
  - intros Hn. left. apply list_elem_of_fmap_2, list_elem_of_filter. done.
Qed.

Lemma missing_section_reported_witness :
  missing_section (py "a.md") (py "Change Log") ∈
    file_findings {| name := py "a.md"; read_text := inr (py "## Overview\n### Change Log\n") |}.
Proof.
  apply (missing_section_reported (py "a.md") (py "## Overview\n### Change Log\n")
           (py "Change Log")).
  - by apply (bool_decide_unpack _); vm_compute.
  - apply (proj1 (Forall_forall (λ line, header_name line ≠ Some (py "Change Log")) _)).
    by apply (bool_decide_unpack _); vm_compute.
Defined.

Lemma subsection_pairs_elem S sub :
  (S, sub) ∈ subsection_pairs ↔ ∃ subs, (S, subs) ∈ REQUIRED_SUBSECTIONS ∧ sub ∈ subs.
Proof.
  unfold subsection_pairs. rewrite list_elem_of_bind. split.
  - intros ([T subs] & (x & [= -> ->] & Hx)%list_elem_of_fmap & Hin). by exists subs.
  - intros (subs & Hin & Hsub). exists (S, subs). split; [|done].
    apply list_elem_of_fmap. by exists sub.
Qed.

Lemma missing_subsection_inj f S sub T sub' :
  (S, sub) ∈ subsection_pairs → (T, sub') ∈ subsection_pairs →
  missing_subsection f S sub = missing_subsection f T sub' → (S, sub) = (T, sub').
Proof.
  intros H1 H2 E. apply (f_equal details) in E. cbn [details missing_subsection] in E.
  assert (NoDup ((λ p, details (missing_subsection [] p.1 p.2)) <$> subsection_pairs)) as Hnd
    by (by apply (bool_decide_unpack _); vm_compute).
  apply list_elem_of_lookup in H1 as [i Hi]. apply list_elem_of_lookup in H2 as [j Hj].
  assert (i = j) as <-; [|congruence].
  eapply (NoDup_lookup _ _ _ _ Hnd).
  - rewrite list_lookup_fmap, Hi. reflexivity.
  - rewrite list_lookup_fmap, Hj. cbn [fmap option_fmap option_map details missing_subsection fst snd].
    by rewrite E.
Qed.

(** X5. A required subsection is reported as missing exactly when its
    section is in the section map and the body of the section does not
    hold the text of the subsection heading; for a section that is not
    in the map nothing is reported about its subsections. *)
Theorem missing_subsection_reported (f content S sub : str) (subs : list str) :
  (S, subs) ∈ REQUIRED_SUBSECTIONS → sub ∈ subs →
  missing_subsection f S sub ∈ file_findings {| name := f; read_text := inr content |} ↔
  ∃ body, _extract_sections content !! S = Some body ∧ ¬ occurs (py "### " ++ sub) body.
Proof.
  intros Hin Hsub. rewrite file_findings_eq. cbn [read_text name]. unfold content_findings.
  rewrite !elem_of_app. split.
  - intros [H|[H|[H|[H|H]]]].
    + by apply sections_findings_kind in H.
    + apply subsections_findings_elem in H
        as (T & subs' & body & sub' & Hin' & Hm & Hsub' & Hn & E).
      apply missing_subsection_inj in E as [= -> ->];
        [by exists body|apply subsection_pairs_elem; eauto..].
    + by apply ownership_findings_kind in H.
    + by apply role_findings_kind in H.
    + by apply telemetry_findings_kind in H.
  - intros (body & Hm & Hn). right. left. apply subsections_findings_elem.
    by exists S, subs, body, sub.
Qed.

Lemma missing_subsection_reported_witness :
  missing_subsection (py "a.md") (py "Capabilities") (py "Technical Skills") ∈
    file_findings {| name := py "a.md";
                     read_text := inr (py "## Capabilities\n### Core Capabilities\n") |}.
Proof.
  apply (missing_subsection_reported (py "a.md") (py "## Capabilities\n### Core Capabilities\n")
           (py "Capabilities") (py "Technical Skills")
           [py "Core Capabilities"; py "Technical Skills"]).
  - by apply (bool_decide_unpack _); vm_compute.
  - by apply (bool_decide_unpack _); vm_compute.
  - exists (py "### Core Capabilities\n"). split; [by vm_compute|].
    by apply (bool_decide_unpack _); vm_compute.
Defined.

Lemma ownership_findings_body f content body rest :
  body_of (py "## Ownership & Maintenance") [py "\n##"] content body rest →
  ownership_findings f content =
    missing_ownership_field f <$>
      filter (λ field, ¬ occurs (py "**" ++ field ++ py "**:") body) REQUIRED_OWNERSHIP_FIELDS.
Proof.
  intros Hb. unfold ownership_findings.
  rewrite ownership_re_body, (proj2 (re_search_body _ _ _ (rest, Some body))) by eauto.
  reflexivity.
Qed.

Lemma ownership_findings_no_body f content :
  (∀ body rest, ¬ body_of (py "## Ownership & Maintenance") [py "\n##"] content body rest) →
  ownership_findings f content = [].
Proof.
  intros Hn. unfold ownership_findings. rewrite ownership_re_body.
  destruct (re_search _ content) as [m|] eqn:E; [|done].
  apply re_search_body in E as (body & rest & _ & Hb). by destruct (Hn body rest).
Qed.

(** X6. The ownership check as it behaves. It looks at the body that
    follows the first place where the heading text stands before
    whitespace and at least one more character: the shortest text that
    ends before a newline followed by [##], or at the end of the text.
    It reports one MISSING_FIELD finding, in the order of the table, for
    every field whose label does not occur in that body, and nothing
    when there is no such body; so nothing when the heading text does
    not occur. *)
Theorem check_ownership_fields_spec (f content : str) :
  (¬ occurs (py "## Ownership & Maintenance") content →
     emits (_check_ownership_fields f content) []) ∧
  ((∀ body rest,
      ¬ body_of (py "## Ownership & Maintenance") [py "\n##"] content body rest) →
     emits (_check_ownership_fields f content) []) ∧
  (∀ body rest,
     body_of (py "## Ownership & Maintenance") [py "\n##"] content body rest →
     emits (_check_ownership_fields f content)
       (missing_ownership_field f <$>
          filter (λ field, ¬ occurs (py "**" ++ field ++ py "**:") body)
            REQUIRED_OWNERSHIP_FIELDS)).
Proof.
  pose proof (check_ownership_fields_emits f content) as He. split_and!.
  - intros Hn. unfold ownership_findings in He.
    destruct (re_search ownership_re content) as [m|] eqn:E; [|done].
    apply re_search_Lit_Cat in E. done.
  - intros Hn. by rewrite ownership_findings_no_body in He.
  - intros body rest Hb. by rewrite (ownership_findings_body _ _ _ _ Hb) in He.
Qed.

Lemma check_ownership_fields_spec_witness :
  emits (_check_ownership_fields (py "a.md")
           (py "## Ownership & Maintenance\n- **Owner**: A\n- **Last Updated**: today\n## Change Log\n"))
        [ missing_ownership_field (py "a.md") (py "Backup Owner");
          missing_ownership_field (py "a.md") (py "Review Frequency") ].
Proof.
  apply (proj2 (proj2 (check_ownership_fields_spec (py "a.md")
    (py "## Ownership & Maintenance\n- **Owner**: A\n- **Last Updated**: today\n## Change Log\n")))
    (py "- **Owner**: A\n- **Last Updated**: today") (py "\n## Change Log\n")).
  apply body_of_search. by vm_compute.
Defined.

Lemma concat_length_le {A B} (g : A → list B) (h : A → nat) (l : list A) :
  (∀ x, x ∈ l → (length (g x) ≤ h x)%nat) →
  (length (concat (g <$> l)) ≤ sum_list_with h l)%nat.
Proof.
  induction l as [|x l IH]; intros Hg; [done|]. rewrite fmap_cons. cbn.
  rewrite length_app. pose proof (Hg x ltac:(left)).
  pose proof (IH (λ y Hy, Hg y ltac:(by right))). lia.
Qed.

Lemma content_findings_length f content : (length (content_findings f content) ≤ 35)%nat.
Proof.
  unfold content_findings. rewrite !length_app.
  assert (length (sections_findings f (_extract_sections content)) ≤ 12)%nat as H1.
  { unfold sections_findings. rewrite length_fmap. apply (length_filter _ REQUIRED_SECTIONS). }
  assert (length (subsections_findings f (_extract_sections content)) ≤ 17)%nat as H2.
  { unfold subsections_findings.
    etrans; [apply (concat_length_le _ (λ p, length p.2))|done].
    intros [section subs] _. cbn. destruct (_ !! section); [|cbn; lia].
    rewrite length_fmap. apply length_filter. }
  assert (length (ownership_findings f content) ≤ 4)%nat as H3.
  { unfold ownership_findings. destruct (re_search ownership_re content); [|cbn; lia].
    rewrite length_fmap. apply (length_filter _ REQUIRED_OWNERSHIP_FIELDS). }
  assert (length (role_findings f content) ≤ 1)%nat as H4.
  { unfold role_findings. case_decide; cbn; lia. }
  assert (length (telemetry_findings f content) ≤ 1)%nat as H5.
  { unfold telemetry_findings. destruct (re_search events_re content); [|cbn; lia].
    cbv zeta. case_decide; cbn; lia. }
  lia.
Qed.

Lemma content_findings_kind f content e :
  e ∈ content_findings f content →
  error_type e ∈ [py "MISSING_SECTION"; py "MISSING_SUBSECTION"; py "MISSING_FIELD";
                  py "TELEMETRY_NAMING"].
Proof.
  unfold content_findings. rewrite !elem_of_app. intros [H|[H|[H|[H|H]]]].
  - rewrite (sections_findings_kind _ _ _ H). by apply (bool_decide_unpack _); vm_compute.
  - rewrite (subsections_findings_kind _ _ _ H). by apply (bool_decide_unpack _); vm_compute.
  - rewrite (ownership_findings_kind _ _ _ H). by apply (bool_decide_unpack _); vm_compute.
  - rewrite (role_findings_kind _ _ _ H). by apply (bool_decide_unpack _); vm_compute.
  - rewrite (telemetry_findings_kind _ _ _ H). by apply (bool_decide_unpack _); vm_compute.
Qed.

(** X7. The findings of one file: a file that cannot be read has its
    READ_ERROR finding and no other; a file that is read has at most 35
    findings, each of one of the four structural kinds and none of kind
    READ_ERROR. *)
Theorem file_findings_kinds (f : file) :
  (∀ msg, read_text f = inl msg → file_findings f = [read_error (name f) msg]) ∧
  (∀ content, read_text f = inr content →
     (length (file_findings f) ≤ 35)%nat ∧
     ∀ e, e ∈ file_findings f →
       error_type e ∈ [py "MISSING_SECTION"; py "MISSING_SUBSECTION"; py "MISSING_FIELD";
                       py "TELEMETRY_NAMING"] ∧
       error_type e ≠ py "READ_ERROR").
Proof.
  rewrite file_findings_eq. split.
  - by intros msg ->.
  - intros content ->. split; [apply content_findings_length|].
    intros e He%content_findings_kind. split; [done|].
    intros E. rewrite E in He. revert He. by apply (bool_decide_unpack _); vm_compute.
Qed.

Lemma file_findings_kinds_witness :
  (length (file_findings {| name := py "a.md"; read_text := inr [] |}) ≤ 35)%nat.
Proof.
  apply (proj2 (file_findings_kinds {| name := py "a.md"; read_text := inr [] |}) []).
  reflexivity.
Defined.

Lemma ownership_findings_nil f content :
  ownership_findings f content = [] ↔
  ∀ body rest,
    body_of (py "## Ownership & Maintenance") [py "\n##"] content body rest →
    ∀ field, field ∈ REQUIRED_OWNERSHIP_FIELDS → occurs (py "**" ++ field ++ py "**:") body.
Proof.
  unfold ownership_findings. rewrite ownership_re_body.
  destruct (re_search _ content) as [m|] eqn:E.
  - apply re_search_body in E as (body & rest & -> & Hb).
    rewrite fmap_eq_nil, filter_eq_nil. cbn [group1 snd default from_option id]. split.
    + intros Hall body' rest' Hb' field Hf.
      assert (re_search (body_re (py "## Ownership & Maintenance") [py "\n##"]) content =
              Some (rest', Some body')) as E' by (apply re_search_body; eauto).
      assert (re_search (body_re (py "## Ownership & Maintenance") [py "\n##"]) content =
              Some (rest, Some body)) as E'' by (apply re_search_body; eauto).
      assert (body' = body) as -> by congruence.
      by apply dec_stable, Hall.
    + intros Hall field Hf Hn. apply Hn. by eapply Hall.
  - split; [|done]. intros _ body rest Hb.
    assert (re_search (body_re (py "## Ownership & Maintenance") [py "\n##"]) content =
            Some (rest, Some body)) as E' by (apply re_search_body; eauto).
    congruence.
Qed.

Lemma telemetry_findings_nil f content :
  telemetry_findings f content = [] ↔
  ∀ body rest,
    body_of (py "### Events to Track") [py "\n###"; py "\n##"] content body rest →
    (∃ t, telemetry_token t body) → telemetry_token (path_stem f) body.
Proof.
  destruct (re_search events_re content) as [m|] eqn:E.
  - rewrite events_re_body in E. apply re_search_body in E as (body & rest & -> & Hb).
    rewrite (telemetry_findings_body _ _ _ _ Hb). split.
    + intros Hnil body' rest' Hb' Ht.
      assert (re_search (body_re (py "### Events to Track") [py "\n###"; py "\n##"]) content =
              Some (rest', Some body')) as E' by (apply re_search_body; eauto).
      assert (re_search (body_re (py "### Events to Track") [py "\n###"; py "\n##"]) content =
              Some (rest, Some body)) as E'' by (apply re_search_body; eauto).
      assert (body' = body) as -> by congruence.
      case_decide as Hd; [done|]. apply re_findall_tokens. apply dec_stable. intros Hn.
      apply Hd. split; [by apply tokens_nonempty|done].
    + intros Hall. rewrite decide_False; [done|]. intros [Hne Hn]. apply Hn.
      apply re_findall_tokens, (Hall body rest Hb). by apply tokens_nonempty.
  - unfold telemetry_findings. rewrite E. split; [|done]. intros _ body rest Hb.
    assert (re_search (body_re (py "### Events to Track") [py "\n###"; py "\n##"]) content =
            Some (rest, Some body)) as E' by (apply re_search_body; eauto).
    rewrite <- events_re_body in E'. congruence.
Qed.

(** X8. When a document is accepted. A text has no finding exactly when
    every required section is declared by a header line, every required
    subsection heading occurs in the body of its section, the body that
    the ownership check looks at, if there is one, holds the four field
    labels, the Role label occurs in the first 500 characters, and the
    body that the telemetry check looks at, if it has a token, has the
    identity of the document among its tokens. *)
Theorem accepted_iff (f content : str) :
  file_findings {| name := f; read_text := inr content |} = [] ↔
  (∀ S, S ∈ REQUIRED_SECTIONS →
     ∃ line, line ∈ split_nl content ∧ header_name line = Some S) ∧
  (∀ S subs body sub,
     (S, subs) ∈ REQUIRED_SUBSECTIONS → _extract_sections content !! S = Some body →
     sub ∈ subs → occurs (py "### " ++ sub) body) ∧
  (∀ body rest,
     body_of (py "## Ownership & Maintenance") [py "\n##"] content body rest →
     ∀ field, field ∈ REQUIRED_OWNERSHIP_FIELDS → occurs (py "**" ++ field ++ py "**:") body) ∧
  occurs (py "**Role**:") (take 500 content) ∧
  (∀ body rest,
     body_of (py "### Events to Track") [py "\n###"; py "\n##"] content body rest →
     (∃ t, telemetry_token t body) → telemetry_token (path_stem f) body).
Proof.
  rewrite file_findings_eq. cbn [read_text name]. unfold content_findings.
  rewrite !app_nil, sections_findings_nil, subsections_findings_nil,
    ownership_findings_nil, telemetry_findings_nil.
  assert (role_findings f content = [] ↔ occurs (py "**Role**:") (take 500 content)) as ->.
  { unfold role_findings. case_decide; by split. }
  assert ((∀ rs, rs ∈ REQUIRED_SECTIONS → is_Some (_extract_sections content !! rs)) ↔
          (∀ S, S ∈ REQUIRED_SECTIONS →
             ∃ line, line ∈ split_nl content ∧ header_name line = Some S)) as ->; [|done].
  destruct required_sections_facts as (_ & Hchars & _).
  split; intros H S HS; specialize (H S HS).
  - rewrite extract_sections_lines in H. by apply extract_lines_dom in H as [_ ?].
  - rewrite extract_sections_lines. apply extract_lines_dom. split; [|done].
    by eapply Forall_forall in Hchars as [? _].
Qed.

Lemma accepted_iff_witness :
  occurs (py "**Role**:") (take 500 (join_nl conforming_lines)).
Proof.
  apply (proj1 (accepted_iff (py "myagent.md") (join_nl conforming_lines))).
  by vm_compute.
Defined.

(** ** The order of the files *)

Lemma str_le_refl a : str_le a a = true.
Proof.
  induction a as [|x a IH]; [done|]. simpl. by rewrite N.eqb_refl, IH, orb_true_r.
Qed.

Lemma str_le_total a b : str_le a b = true ∨ str_le b a = true.
Proof.
  revert b. induction a as [|x a IH]; intros [|y b]; simpl; auto.
  destruct (N.ltb_spec x y); [by left|]. destruct (N.ltb_spec y x); [by right|].
  assert (x = y) as -> by lia. rewrite N.eqb_refl. simpl. apply IH.
Qed.

Lemma str_le_antisym a b : str_le a b = true → str_le b a = true → a = b.
Proof.
  revert b. induction a as [|x a IH]; intros [|y b]; simpl; try done.
  rewrite !orb_true_iff, !andb_true_iff, !N.ltb_lt, !N.eqb_eq.
  intros [H1|[-> H1]] [H2|[H2 H3]]; try lia. f_equal. by apply IH.
Qed.

Lemma str_le_trans a b c : str_le a b = true → str_le b c = true → str_le a c = true.
Proof.
  revert b c. induction a as [|x a IH]; intros [|y b] [|z c]; simpl; try done.
  rewrite !orb_true_iff, !andb_true_iff, !N.ltb_lt, !N.eqb_eq.
  intros [H1|[-> H1]] [H2|[-> H2]]; [left; lia|by left|by left|].
  right. split; [done|]. by eapply IH.
Qed.

(** Two files with different names go into a sorted list in either
    order. *)
Lemma insert_sorted_comm f g l :
  name f ≠ name g →
  insert_sorted f (insert_sorted g l) = insert_sorted g (insert_sorted f l).
Proof.
  intros Hne.
  assert (str_le (name f) (name g) = negb (str_le (name g) (name f))) as Hfg.
  { destruct (str_le (name f) (name g)) eqn:E1, (str_le (name g) (name f)) eqn:E2; try done.
    - destruct Hne. by apply str_le_antisym.
    - destruct (str_le_total (name f) (name g)); congruence. }
  induction l as [|x l IH]; simpl.
  - rewrite Hfg. by destruct (str_le (name g) (name f)).
  - destruct (str_le (name g) (name x)) eqn:Egx, (str_le (name f) (name x)) eqn:Efx; simpl;
      rewrite ?Egx, ?Efx.
    + rewrite Hfg. by destruct (str_le (name g) (name f)).
    + destruct (str_le (name f) (name g)) eqn:E; [|done].
      by rewrite (str_le_trans _ _ _ E Egx) in Efx.
    + destruct (str_le (name g) (name f)) eqn:E; [|done].
      by rewrite (str_le_trans _ _ _ E Efx) in Egx.
    + by rewrite IH.
Qed.

Lemma sorted_Permutation l l' :
  l ≡ₚ l' → NoDup (name <$> l) → sorted l = sorted l'.
Proof.
  induction 1 as [|x l l' Hp IH|x y l|l l' l'' Hp IH Hp' IH']; intros Hnd.
  - done.
  - simpl. rewrite IH; [done|]. rewrite fmap_cons in Hnd. by apply NoDup_cons in Hnd as [_ ?].
  - simpl. apply insert_sorted_comm. rewrite !fmap_cons in Hnd.
    apply NoDup_cons in Hnd as [Hy _]. intros E. apply Hy. rewrite E. left.
  - rewrite IH by done. apply IH'. by rewrite <- Hp.
Qed.

Lemma agent_files_NoDup entries :
  NoDup (name <$> entries) → NoDup (name <$> agent_files entries).
Proof.
  intros H. eapply sublist_NoDup; [done|]. apply fmap_sublist, sublist_filter.
Qed.

Lemma validate_all_Permutation path entries entries' v :
  entries ≡ₚ entries' → NoDup (name <$> entries) →
  validate_all {| dir_path := path; dir_entries := Some entries |} v =
  validate_all {| dir_path := path; dir_entries := Some entries' |} v.
Proof.
  intros Hp Hnd. rewrite !validate_all_run. cbn [dir_entries dir_path].
  assert (agent_files entries ≡ₚ agent_files entries') as Hp'.
  { unfold agent_files. by rewrite Hp. }
  pose proof (sorted_Permutation _ _ Hp' (agent_files_NoDup _ Hnd)) as Hs.
  pose proof (Permutation_length Hp') as Hl.
  destruct (agent_files entries) as [|f l], (agent_files entries') as [|f' l']; try done.
  cbv zeta. by rewrite Hs, Hl.
Qed.

(** X9. The order in which the directory lists its files does not
    matter: two listings of the same files, whose names are distinct as
    they are in a directory, give the same exit code, the same findings
    in the same order and the same output. *)
Theorem listing_order_irrelevant (repo_root path : str) (entries entries' : list file) :
  entries ≡ₚ entries' → NoDup (name <$> entries) →
  exit_code repo_root {| dir_path := path; dir_entries := Some entries |} =
    exit_code repo_root {| dir_path := path; dir_entries := Some entries' |} ∧
  final_state repo_root {| dir_path := path; dir_entries := Some entries |} =
    final_state repo_root {| dir_path := path; dir_entries := Some entries' |}.
Proof.
  intros Hp Hnd. unfold exit_code, final_state. rewrite !main_run.
  change (banner_state repo_root {| dir_path := path; dir_entries := Some entries' |})
    with (banner_state repo_root {| dir_path := path; dir_entries := Some entries |}).
  by rewrite (validate_all_Permutation path entries entries' _ Hp Hnd).
Qed.

Lemma listing_order_irrelevant_witness :
  exit_code (py "/repo")
    {| dir_path := py "/repo/docs/agents";
       dir_entries := Some [ {| name := py "b.md"; read_text := inl (py "denied") |};
                             {| name := py "a.md"; read_text := inr (py "# A") |} ] |} =
  exit_code (py "/repo")
    {| dir_path := py "/repo/docs/agents";
       dir_entries := Some [ {| name := py "a.md"; read_text := inr (py "# A") |};
                             {| name := py "b.md"; read_text := inl (py "denied") |} ] |} ∧
  final_state (py "/repo")
    {| dir_path := py "/repo/docs/agents";
       dir_entries := Some [ {| name := py "b.md"; read_text := inl (py "denied") |};
                             {| name := py "a.md"; read_text := inr (py "# A") |} ] |} =
  final_state (py "/repo")
    {| dir_path := py "/repo/docs/agents";
       dir_entries := Some [ {| name := py "a.md"; read_text := inr (py "# A") |};
                             {| name := py "b.md"; read_text := inl (py "denied") |} ] |}.
Proof.
  apply listing_order_irrelevant.
  - apply Permutation_swap.
  - by apply (bool_decide_unpack _); vm_compute.
Defined.

Lemma insert_sorted_sorted f l :
  StronglySorted (λ a b, str_le (name a) (name b) = true) l →
  StronglySorted (λ a b, str_le (name a) (name b) = true) (insert_sorted f l).
Proof.
  induction 1 as [|x l Hl IH Hx]; simpl.
  - by repeat constructor.
  - destruct (str_le (name f) (name x)) eqn:E.
    + constructor; [by constructor|]. constructor; [done|].
      eapply Forall_impl; [exact Hx|]. intros y Hy. cbn beta in *. by eapply str_le_trans.
    + constructor; [done|]. rewrite insert_sorted_perm. constructor; [|done].
      destruct (str_le_total (name f) (name x)); congruence.
Qed.

Lemma sorted_sorted l :
  StronglySorted (λ a b, str_le (name a) (name b) = true) (sorted l).
Proof.
  induction l as [|f l IH]; simpl; [constructor|]. by apply insert_sorted_sorted.
Qed.

Lemma findings_sorted l :
  StronglySorted (λ a b, str_le (name a) (name b) = true) l →
  StronglySorted (λ a b, str_le a b = true) (filename <$> concat (file_findings <$> l)).
Proof.
  induction 1 as [|f l Hl IH Hf]; [constructor|].
  rewrite fmap_cons. cbn [concat]. rewrite fmap_app.
  assert (Forall (λ b, str_le (name f) b = true)
            (filename <$> concat (file_findings <$> l))) as Hrest.
  { apply Forall_forall. intros b (e & -> & He)%list_elem_of_fmap.
    apply elem_of_concat in He as (block & (g & -> & Hg)%list_elem_of_fmap & He).
    rewrite (file_findings_filename g e He).
    by eapply (proj1 (Forall_forall _ _)) in Hf. }
  pose proof (file_findings_filename f) as Hblock.
  induction (file_findings f) as [|e block IHb]; [done|].
  rewrite fmap_cons. cbn [app]. constructor.
  - apply IHb. intros e' He'. apply Hblock. by right.
  - rewrite (Hblock e) by left. apply Forall_app. split; [|done].
    apply Forall_forall. intros b (e' & -> & He')%list_elem_of_fmap.
    rewrite (Hblock e') by (by right). apply str_le_refl.
Qed.

Lemma ends_with_spec w s : ends_with w s = true ↔ ∃ a, s = a ++ w.
Proof.
  unfold ends_with. rewrite bool_decide_eq_true. split.
  - intros E. exists (take (length s - length w) s).
    transitivity (take (length s - length w) s ++ drop (length s - length w) s);
      [by rewrite take_drop|by rewrite E].
  - intros [a ->]. rewrite length_app, Nat.add_sub. apply drop_app_length.
Qed.

(** X10. Which findings a run has. Every finding of a run is a finding
    of a file of the directory whose name ends in [.md] and is neither
    [TEMPLATE.md] nor [README.md], and it carries that file's name; and
    the findings stand in the order of their file names, compared by
    code points, however the directory lists its files. *)
Theorem run_findings_by_file (repo_root : str) (d : directory) :
  (∀ e, e ∈ errors (final_state repo_root d) →
     ∃ entries f stem,
       dir_entries d = Some entries ∧ f ∈ entries ∧
       e ∈ file_findings f ∧ filename e = name f ∧
       name f = stem ++ py ".md" ∧ name f ≠ py "TEMPLATE.md" ∧ name f ≠ py "README.md") ∧
  StronglySorted (λ a b, str_le a b = true) (filename <$> errors (final_state repo_root d)).
Proof.
  rewrite final_errors. destruct (dir_entries d) as [entries|]; [|split; [|constructor]].
  - split; [|apply findings_sorted, sorted_sorted].
    intros e (block & (f & -> & Hf)%list_elem_of_fmap & He)%elem_of_concat.
    rewrite sorted_perm in Hf. unfold agent_files in Hf.
    apply list_elem_of_filter in Hf as [(Hmd & Ht & Hr) Hf].
    apply ends_with_spec in Hmd as [stem Hmd].
    exists entries, f, stem. split_and!; try done. by apply file_findings_filename.
  - by intros e ?%not_elem_of_nil.
Qed.

(** ** The summary *)

Lemma for_each_print {A} (g : A → str) (l : list A) v :
  for_each l (λ x, print (g x)) v =
  (tt, {| errors := errors v; stdout := stdout v ++ (g <$> l) |}).
Proof.
  revert v. induction l as [|x l IH]; intros v; simpl.
  - unfold ret. destruct v. cbn. by rewrite app_nil_r.
  - unfold bind. unfold print at 1. rewrite IH. cbn. by rewrite <- app_assoc.
Qed.

Lemma print_summary_run v :
  exec print_summary v =
  {| errors := errors v; stdout := stdout v ++ summary_lines (errors v) |}.
Proof.
  unfold print_summary, exec. unfold bind at 1 2. unfold print at 1, get_errors.
  cbn [errors stdout fst snd].
  destruct (errors v) as [|e es] eqn:E.
  - unfold bind, print. cbn. by rewrite <- !app_assoc.
  - unfold bind at 1 2 3. unfold print at 1 2 3. cbn [errors stdout].
    unfold bind at 1. rewrite for_each_print. unfold bind, print. cbn [errors stdout snd].
    unfold summary_lines, failure_line. by rewrite <- !app_assoc.
Qed.

Lemma final_stdout repo_root d :
  stdout (final_state repo_root d) =
  progress_lines repo_root d ++ summary_lines (errors (final_state repo_root d)).
Proof.
  unfold final_state, progress_lines. rewrite main_run. cbn [snd].
  by rewrite print_summary_errors, print_summary_run.
Qed.

(** No line that a run prints before the summary, and no line of the
    summary of a run with findings, starts with the check mark. *)
Lemma progress_lines_marks repo_root d :
  Forall (λ line, head line ≠ Some 9989) (progress_lines repo_root d).
Proof.
  unfold progress_lines. rewrite validate_all_run.
  destruct (dir_entries d) as [entries|].
  - destruct (agent_files entries) as [|f l].
    + cbn [snd stdout banner_state app]. repeat (apply List.Forall_cons; [by vm_compute|]).
      constructor.
    + cbv zeta. cbn [snd stdout banner_state app].
      repeat (apply List.Forall_cons; [by vm_compute|]).
      apply Forall_forall. intros line (g & -> & _)%list_elem_of_fmap. by vm_compute.
  - cbn [snd stdout banner_state app]. repeat (apply List.Forall_cons; [by vm_compute|]).
    constructor.
Qed.

Lemma failure_lines_marks e es :
  Forall (λ line, head line ≠ Some 9989) (summary_lines (e :: es)).
Proof.
  unfold summary_lines. generalize (e :: es). intros l.
  rewrite !Forall_app. split_and!.
  - repeat (apply List.Forall_cons; [by vm_compute|]). constructor.
  - apply Forall_forall. intros line (g & -> & _)%list_elem_of_fmap. by vm_compute.
  - repeat (apply List.Forall_cons; [by vm_compute|]). constructor.
Qed.

(** X11. What the summary says. The banner that all specifications
    passed is printed exactly when the run has no finding; every finding
    is printed in its rendering; a run with findings ends with the line
    that counts them. A run on a directory that does not exist has no
    finding: it prints the banner and yet exits with 1. *)
Theorem summary_spec (repo_root : str) (d : directory) :
  (pass_banner ∈ stdout (final_state repo_root d) ↔ errors (final_state repo_root d) = []) ∧
  (∀ e, e ∈ errors (final_state repo_root d) →
        ValidationError_str e ∈ stdout (final_state repo_root d)) ∧
  (errors (final_state repo_root d) ≠ [] →
     last (stdout (final_state repo_root d)) =
     Some (failure_line (length (errors (final_state repo_root d))))) ∧
  (dir_entries d = None →
     pass_banner ∈ stdout (final_state repo_root d) ∧ exit_code repo_root d = 1%Z).
Proof.
  assert (pass_banner ∈ stdout (final_state repo_root d) ↔
          errors (final_state repo_root d) = []) as Hbanner.
  { rewrite final_stdout, elem_of_app. split.
    - intros [H|H].
      + exfalso. by eapply (proj1 (Forall_forall _ _)) in H; [|apply progress_lines_marks].
      + destruct (errors (final_state repo_root d)) as [|e es]; [done|]. exfalso.
        by eapply (proj1 (Forall_forall _ _)) in H; [|apply failure_lines_marks].
    - intros ->. right. cbn [summary_lines]. do 2 right. left. }
  split_and!; [done| | |].
  - intros e He. rewrite final_stdout, elem_of_app. right.
    destruct (errors (final_state repo_root d)) as [|e' es]; [by apply not_elem_of_nil in He|].
    unfold summary_lines. rewrite !elem_of_app. right. left. by apply list_elem_of_fmap_2.
  - intros Hne. rewrite final_stdout.
    destruct (errors (final_state repo_root d)) as [|e' es]; [done|].
    unfold summary_lines.
    change [ []; failure_line (length (e' :: es))] with ([ [] ] ++ [failure_line (length (e' :: es))]).
    by rewrite !app_assoc, last_snoc.
  - intros Hd. split.
    + apply Hbanner. by rewrite final_errors, Hd.
    + by rewrite exit_code_eq, Hd.
Qed.

Lemma summary_spec_witness :
  pass_banner ∈ stdout (final_state (py "/repo")
                          {| dir_path := py "/repo/docs/agents"; dir_entries := None |}) ∧
  exit_code (py "/repo") {| dir_path := py "/repo/docs/agents"; dir_entries := None |} = 1%Z.
Proof.
  by apply (proj2 (proj2 (proj2 (summary_spec (py "/repo")
    {| dir_path := py "/repo/docs/agents"; dir_entries := None |})))).
Defined.

(** ** Whitespace at the end of a header line *)

Lemma lstrip_app_spaces t ws :
  Forall (λ c, isspace c = true) ws →
  ∃ ws', Forall (λ c, isspace c = true) ws' ∧ lstrip (t ++ ws) = lstrip t ++ ws'.
Proof.
  intros Hws. induction t as [|c t IH]; simpl.
  - exists []. split; [constructor|].
    rewrite <- (app_nil_r ws). by rewrite lstrip_spaces.
  - destruct (isspace c); [done|]. by exists ws.
Qed.

Lemma strip_app_spaces t ws :
  Forall (λ c, isspace c = true) ws → strip (t ++ ws) = strip t.
Proof.
  intros Hws. unfold strip, rstrip.
  destruct (lstrip_app_spaces t ws Hws) as (ws' & Hws' & ->).
  rewrite reverse_app, lstrip_spaces; [done|]. by apply Forall_reverse.
Qed.

Lemma header_name_app_spaces h ws S :
  nl ∉ h → nl ∉ ws → Forall (λ c, isspace c = true) ws →
  header_name h = Some S → header_name (h ++ ws) = Some S.
Proof.
  intros Hh Hw Hsp. unfold header_name.
  destruct (re_match header_re h) as [m|] eqn:E; [|done].
  apply header_match in E as (ws1 & title & -> & Hws1 & Hsp1 & Hti & _ & ->); [|done].
  intros [= <-]. cbn [group1 snd default from_option id].
  assert (nl ∉ (py "##" ++ ws1 ++ title) ++ ws) as Hnl by (rewrite elem_of_app; tauto).
  destruct (re_match header_re ((py "##" ++ ws1 ++ title) ++ ws)) as [m'|] eqn:E'.
  - apply header_match in E' as (ws2 & title2 & E2 & Hws2 & Hsp2 & Hti2 & _ & ->); [|done].
    rewrite <- !app_assoc in E2. apply app_inv_head in E2.
    cbn [fmap option_fmap option_map group1 snd default from_option id]. f_equal.
    rewrite <- (strip_spaces ws2 title2), <- E2 by done.
    by rewrite strip_spaces, strip_app_spaces.
  - rewrite header_match_None in E' by done.
    rewrite <- !app_assoc in E'.
    specialize (E' ws1 (title ++ ws) eq_refl Hws1 Hsp1). by destruct title.
Qed.

(** X12. Whitespace at the end of a header line, such as the carriage
    return of a text with Windows line ends, changes nothing: the line
    declares the same section, and the text has the same section map. *)
Theorem header_trailing_space (pre post : list str) (h ws S : str) :
  Forall (λ l, nl ∉ l) (pre ++ h :: post) → nl ∉ ws →
  Forall (λ c, isspace c = true) ws →
  header_name h = Some S →
  header_name (h ++ ws) = Some S ∧
  _extract_sections (join_nl (pre ++ (h ++ ws) :: post)) =
  _extract_sections (join_nl (pre ++ h :: post)).
Proof.
  intros Hfree Hw Hsp Hh.
  apply Forall_app in Hfree as [Hpre [Hnl Hpost]%Forall_cons].
  assert (header_name (h ++ ws) = Some S) as Hh' by by apply header_name_app_spaces.
  split; [done|]. rewrite !extract_sections_join.
  - unfold extract_lines. rewrite !fold_left_app. cbn [fold_left].
    by rewrite (extract_step_header _ _ _ Hh), (extract_step_header _ _ _ Hh').
  - apply Forall_app. by split; [|constructor].
  - apply Forall_app. split; [done|]. constructor; [|done]. rewrite elem_of_app. tauto.
Qed.

Lemma header_trailing_space_witness :
  header_name (py "## Overview" ++ [13]) = Some (py "Overview") ∧
  _extract_sections (join_nl ([py "# Agent"] ++ (py "## Overview" ++ [13]) :: [py "text"])) =
  _extract_sections (join_nl ([py "# Agent"] ++ py "## Overview" :: [py "text"])).
Proof.
  apply header_trailing_space.
  - by apply (bool_decide_unpack _); vm_compute.
  - by apply (bool_decide_unpack _); vm_compute.
  - by apply (bool_decide_unpack _); vm_compute.
  - by vm_compute.
Defined.

(** ** No finding twice *)

Lemma concat_fmap_sublist {A B} (g1 g2 : A → list B) (l : list A) :
  (∀ x, g1 x `sublist_of` g2 x) → concat (g1 <$> l) `sublist_of` concat (g2 <$> l).
Proof.
  intros H. induction l as [|x l IH]; [done|]. rewrite !fmap_cons. cbn [concat].
  by apply sublist_app.
Qed.

Lemma content_findings_sublist f content :
  content_findings f content `sublist_of` possible_findings f.
Proof.
  unfold content_findings, possible_findings.
  apply sublist_app; [|apply sublist_app; [|apply sublist_app; [|apply sublist_app]]].
  - apply fmap_sublist, sublist_filter.
  - apply concat_fmap_sublist. intros [section subs].
    destruct (_ !! section); [|apply sublist_nil_l]. apply fmap_sublist, sublist_filter.
  - unfold ownership_findings. destruct (re_search _ _); [|apply sublist_nil_l].
    apply fmap_sublist, sublist_filter.
  - unfold role_findings. case_decide; [apply sublist_nil_l|done].
  - unfold telemetry_findings. destruct (re_search _ _); [|apply sublist_nil_l].
    cbv zeta. case_decide; [done|apply sublist_nil_l].
Qed.

Lemma possible_findings_NoDup f : NoDup (possible_findings f).
Proof.
  unfold possible_findings. rewrite !app_assoc. apply NoDup_app. split_and!.
  - apply (NoDup_fmap_1 (λ e, (error_type e, details e))).
    by apply (bool_decide_unpack _); vm_compute.
  - intros e He Ht%list_elem_of_singleton. revert e He Ht.
    apply (proj1 (Forall_forall (λ e, e ≠ telemetry_naming f) _)).
    eapply Forall_impl with (P := λ e, error_type e ≠ py "TELEMETRY_NAMING");
      [|by intros e He ->].
    apply (proj1 (Forall_fmap error_type (λ k, k ≠ py "TELEMETRY_NAMING") _)).
    by apply (bool_decide_unpack _); vm_compute.
  - apply NoDup_singleton.
Qed.

(** X13. No finding is reported twice for a file. The findings of a
    file that was read are among the 35 that the tables allow, the twelve
    sections, the seventeen subsections, the four ownership fields, the
    Role field and the telemetry naming, each at most once and in this
    order. *)
Theorem file_findings_once (f : file) :
  NoDup (file_findings f) ∧
  (∀ content, read_text f = inr content →
     file_findings f `sublist_of` possible_findings (name f)) ∧
  length (possible_findings (name f)) = 35%nat.
Proof.
  rewrite file_findings_eq. split_and!; [| |done].
  - destruct (read_text f) as [e|content]; [apply NoDup_singleton|].
    eapply sublist_NoDup; [apply possible_findings_NoDup|apply content_findings_sublist].
  - intros content ->. apply content_findings_sublist.
Qed.

Lemma concat_findings_NoDup l :
  NoDup (name <$> l) → NoDup (concat (file_findings <$> l)).
Proof.
  induction l as [|f l IH]; [constructor|].
  rewrite !fmap_cons. cbn [concat]. intros [Hf Hl]%NoDup_cons.
  apply NoDup_app. split_and!; [| |by apply IH].
  - pose proof (possible_findings_NoDup (name f)) as Hp.
    rewrite file_findings_eq. destruct (read_text f); [apply NoDup_singleton|].
    eapply sublist_NoDup; [exact Hp|apply content_findings_sublist].
  - intros e He (block & (g & -> & Hg)%list_elem_of_fmap & He')%elem_of_concat.
    apply Hf. rewrite <- (file_findings_filename f e He), (file_findings_filename g e He').
    by apply list_elem_of_fmap_2.
Qed.

(** X14. No finding is reported twice in a run: the names of the files
    of a directory being distinct, the findings of a run are pairwise
    different, so the count that the summary prints counts each defect
    once. *)
Theorem run_findings_once (repo_root : str) (d : directory) (entries : list file) :
  dir_entries d = Some entries → NoDup (name <$> entries) →
  NoDup (errors (final_state repo_root d)).
Proof.
  intros Hd Hnd. rewrite final_errors, Hd. apply concat_findings_NoDup.
  rewrite sorted_perm. by apply agent_files_NoDup.
Qed.

Lemma run_findings_once_witness :
  NoDup (errors (final_state (py "/repo")
    {| dir_path := py "/repo/docs/agents";
       dir_entries := Some [ {| name := py "b.md"; read_text := inl (py "denied") |};
                             {| name := py "a.md"; read_text := inr (py "# A") |} ] |})).
Proof.
  apply (run_findings_once (py "/repo") _
           [ {| name := py "b.md"; read_text := inl (py "denied") |};
             {| name := py "a.md"; read_text := inr (py "# A") |} ]).
  - reflexivity.
  - by apply (bool_decide_unpack _); vm_compute.
Defined.

(** ** A missing section and its subsections *)

Lemma missing_section_found f content S :
  missing_section f S ∈ content_findings f content →
  _extract_sections content !! S = None.
Proof.
  unfold content_findings. rewrite !elem_of_app. intros [H|[H|[H|[H|H]]]].
  - apply list_elem_of_fmap in H as (T & ->%missing_section_inj & [HT _]%list_elem_of_filter).
    done.
  - by apply subsections_findings_kind in H.
  - by apply ownership_findings_kind in H.
  - by apply role_findings_kind in H.
  - by apply telemetry_findings_kind in H.
Qed.

Lemma missing_subsection_found f content S subs sub :
  (S, subs) ∈ REQUIRED_SUBSECTIONS → sub ∈ subs →
  missing_subsection f S sub ∈ content_findings f content →
  is_Some (_extract_sections content !! S).
Proof.
  intros Hin Hsub. unfold content_findings. rewrite !elem_of_app. intros [H|[H|[H|[H|H]]]].
  - by apply sections_findings_kind in H.
  - apply subsections_findings_elem in H
      as (T & subs' & body & sub' & Hin' & Hm & Hsub' & Hn & E).
    apply missing_subsection_inj in E as [= -> ->];
      [by exists body|apply subsection_pairs_elem; eauto..].
  - by apply ownership_findings_kind in H.
  - by apply role_findings_kind in H.
  - by apply telemetry_findings_kind in H.
Qed.

(** X15. A section that is reported as missing has none of its
    subsections reported: for a section of the table of subsections, the
    finding that the section is missing and a finding that one of its
    subsections is missing never stand together among the findings of a
    file. *)
Theorem missing_section_suppresses (f content S sub : str) (subs : list str) :
  (S, subs) ∈ REQUIRED_SUBSECTIONS → sub ∈ subs →
  missing_section f S ∈ file_findings {| name := f; read_text := inr content |} →
  missing_subsection f S sub ∉ file_findings {| name := f; read_text := inr content |}.
Proof.
  intros Hin Hsub. rewrite file_findings_eq. cbn [read_text name].
  intros Hs%missing_section_found Hss.
  apply (missing_subsection_found _ _ _ _ _ Hin Hsub) in Hss as [body Hb]. congruence.
Qed.

Lemma missing_section_suppresses_witness :
  missing_subsection (py "a.md") (py "Capabilities") (py "Core Capabilities") ∉
  file_findings {| name := py "a.md"; read_text := inr (py "# A\n## Overview\ntext") |}.
Proof.
  apply (missing_section_suppresses _ _ _ _ [py "Core Capabilities"; py "Technical Skills"]).
  - by apply (bool_decide_unpack _); vm_compute.
  - by apply (bool_decide_unpack _); vm_compute.
  - by apply (bool_decide_unpack _); vm_compute.
Defined.
